(** * RuFoundation: role-based access control in the admin layer

    A shallow embedding of the role, override and user administration code
    of [web/admin.py] and [web/forms.py], with the properties the design
    document states about it.

    Python values are modelled as follows: [int] as [Z], [str] as [string],
    a [dict] as a [gmap], a many-to-many relation to [Permission] rows of the
    role content type as a [gset] of codenames, and a related manager whose
    rows may repeat (the overrides of a category) as a [list]. *)

From Stdlib Require Import ZArith String Bool Lia.
From stdpp Require Import base option list gmap sets strings.

Local Open Scope Z_scope.

(** ** The data model ([web.models], as far as the admin code reads it) *)

Module Models.

(** [Role]: the columns and relations [web/admin.py] touches.
    [index] is the manual ordering column (the role's rank). *)
Record Role := mkRole {
  role_id : Z;
  slug : string;
  name : string;
  index : Z;
  is_staff : bool;
  permissions : gset string;
  restrictions : gset string
}.

(** [RolePermissionsOverride]: one row per override, naming its role. *)
Record RolePermissionsOverride := mkOverride {
  ov_role : Z;
  ov_permissions : gset string;
  ov_restrictions : gset string
}.

(** [Category] with its [permissions_override] relation. *)
Record Category := mkCategory {
  cat_name : string;
  is_indexed : bool;
  permissions_override : list RolePermissionsOverride
}.

(** [User]: the stored columns of a user row. *)
Record User := mkUser {
  pk : option Z;
  username : string;
  email : string;
  is_active : bool;
  is_superuser : bool
}.

#[export] Instance Role_eq_dec : EqDecision Role.
Proof. solve_decision. Defined.

#[export] Instance RolePermissionsOverride_eq_dec :
  EqDecision RolePermissionsOverride.
Proof. solve_decision. Defined.

#[export] Instance User_eq_dec : EqDecision User.
Proof. solve_decision. Defined.

(** The two slugs the code writes as the literal
    [['everyone', 'registered']]. *)
Definition default_slugs : list string :=
  ["everyone"%string; "registered"%string].

(** [Role.objects.exclude(slug__in=['everyone', 'registered'])]. *)
Definition exclude_default_roles (Role_objects : list Role) : list Role :=
  filter (λ r, slug r ∉ default_slugs) Role_objects.

(** [RolePermissionsOverride.objects.create(role_id=role_id)]: a new row
    with both relations empty. *)
Definition RolePermissionsOverride_create (role_id : Z)
  : RolePermissionsOverride :=
  {| ov_role := role_id; ov_permissions := ∅; ov_restrictions := ∅ |}.

(** The overrides among [l] that belong to the role with id [r]. *)
Definition overrides_for (r : Z) (l : list RolePermissionsOverride)
  : list RolePermissionsOverride :=
  filter (λ o, ov_role o = r) l.

(** The invariant of the override store, for the overrides [l] of one
    category: no role has two of them. *)
Definition at_most_one_override (l : list RolePermissionsOverride) : Prop :=
  ∀ r, (length (overrides_for r l) ≤ 1)%nat.

End Models.

Export Models.

(** ** The resolution engine *)

Module Permissions.

(** Modelled from the spec: a principal as the engine of section 4.1 sees
    it, the explicitly assigned roles and whether it is authenticated (the
    user model is not among the sources). *)
Record Principal := mkPrincipal {
  assigned_roles : list Role;
  is_authenticated : bool
}.

(** Modelled from the spec: the role lookup and [has_perm] of
    [web/permissions] and [web/models] are not among the sources; the
    definitions of this module follow section 4.1 of the design document.

    Step 1: explicit roles, then [everyone], then [registered] once the
    principal is authenticated. *)
Definition effective_roles (Role_objects : list Role) (p : Principal)
  : list Role :=
  assigned_roles p
  ++ filter (λ r, slug r = "everyone"%string) Role_objects
  ++ (if is_authenticated p
      then filter (λ r, slug r = "registered"%string) Role_objects
      else []).

(** Modelled from the spec: step 2 of section 4.1. With a scope category
    holding an override for the role, the override's sets stand in for the
    role's global ones; otherwise the global sets apply. *)
Definition effective_sets (scope : option Category) (r : Role)
  : gset string * gset string :=
  match scope with
  | Some c =>
      match overrides_for (role_id r) (permissions_override c) with
      | o :: _ => (ov_permissions o, ov_restrictions o)
      | [] => (permissions r, restrictions r)
      end
  | None => (permissions r, restrictions r)
  end.

Definition effective_allowed (scope : option Category) (r : Role)
  : gset string := (effective_sets scope r).1.

Definition effective_denied (scope : option Category) (r : Role)
  : gset string := (effective_sets scope r).2.

(** Modelled from the spec: step 3 of section 4.1, deny-overrides-allow
    over the effective role set, falling back to [false]. *)
Definition HasPermission (Role_objects : list Role) (p : Principal)
    (capability : string) (scope : option Category) : bool :=
  let roles := effective_roles Role_objects p in
  if existsb (λ r, bool_decide (capability ∈ effective_denied scope r)) roles
  then false
  else if existsb (λ r, bool_decide (capability ∈ effective_allowed scope r))
            roles
  then true
  else false.

End Permissions.

Export Permissions.

(** ** [web/forms.py] and the forms of [web/admin.py] *)

Module Forms.

(** A [ModelMultipleChoiceField] over roles: the choices it offers and the
    two flags the code sets. *)
Record ModelMultipleChoiceField := mkField {
  queryset : list Role;
  required : bool;
  disabled : bool
}.

(** [InviteForm.roles]. *)
Definition InviteForm_roles (Role_objects : list Role)
  : ModelMultipleChoiceField :=
  {| queryset := exclude_default_roles Role_objects;
     required := false;
     disabled := false |}.

(** [AdvancedUserChangeForm.__init__]: [fields] is the form's field table
    after [super().__init__]; the [roles] entry, when the form has one, gets
    the restricted queryset. *)
Definition AdvancedUserChangeForm_init (Role_objects : list Role)
    (fields : gmap string ModelMultipleChoiceField)
  : gmap string ModelMultipleChoiceField :=
  match fields !! "roles"%string with
  | Some f =>
      <["roles"%string :=
          {| queryset := exclude_default_roles Role_objects;
             required := required f;
             disabled := disabled f |}]> fields
  | None => fields
  end.

(** [ModelMultipleChoiceField.clean] of Django's forms, by which both forms
    validate a submission; [value] holds the submitted primary keys. An
    empty value is an error for a required field and cleans to the empty
    queryset otherwise; a key without a row in the field's queryset is an
    invalid choice; the cleaned value is the rows of the queryset with a
    submitted key. [None] is the [ValidationError]. *)
Definition ModelMultipleChoiceField_clean (field : ModelMultipleChoiceField)
    (value : list Z) : option (list Role) :=
  match value with
  | [] => if required field then None else Some []
  | _ :: _ =>
      let qs := filter (λ r, role_id r ∈ value) (queryset field) in
      if bool_decide (Forall (λ key, key ∈ role_id <$> qs) value)
      then Some qs
      else None
  end.

(** The cleaned value of a permissions field: the submitted [allow] and
    [deny] codename lists. The code tests the value for truth and then
    indexes both keys, so a value that passes the test carries both. *)
Record PermsData := mkPermsData {
  allow : list string;
  deny : list string
}.

(** [Permission.objects.filter(codename__in=codenames,
    content_type=content_type)]: [registry] holds the codenames of the
    permissions of the role content type. *)
Definition Permission_filter (registry : gset string)
    (codenames : list string) : gset string :=
  filter (λ c, c ∈ codenames) registry.

(** What [RoleForm] hands to [save]: the model fields of the form and the
    cleaned [_perms_] entry; [None] stands for an entry that is absent or
    falsy (an empty dict). *)
Record RoleCleanedData := mkRoleCleaned {
  cd_slug : string;
  cd_name : string;
  cd_is_staff : bool;
  _perms_ : option PermsData
}.

(** [RoleForm.save]. [instance] is the stored role the form was built on. *)
Definition RoleForm_save (registry : gset string) (instance : Role)
    (cleaned_data : RoleCleanedData) : Role :=
  (* instance = super().save(commit=False); instance.save() *)
  let instance :=
    {| role_id := role_id instance;
       slug := cd_slug cleaned_data;
       name := cd_name cleaned_data;
       index := index instance;
       is_staff := cd_is_staff cleaned_data;
       permissions := permissions instance;
       restrictions := restrictions instance |} in
  match _perms_ cleaned_data with
  | Some perms_data =>
      (* instance.permissions.clear(); instance.restrictions.clear() *)
      let cleared_permissions : gset string := ∅ in
      let cleared_restrictions : gset string := ∅ in
      let new_permissions :=
        match allow perms_data with
        | [] => cleared_permissions
        | _ :: _ => Permission_filter registry (allow perms_data)
        end in
      let new_restrictions :=
        match deny perms_data with
        | [] => cleared_restrictions
        | _ :: _ => Permission_filter registry (deny perms_data)
        end in
      {| role_id := role_id instance;
         slug := slug instance;
         name := name instance;
         index := index instance;
         is_staff := is_staff instance;
         permissions := new_permissions;
         restrictions := new_restrictions |}
  | None => instance
  end.

(** What [CategoryForm] hands to [save]: the model fields and the three
    extra entries of [cleaned_data]. [_perms_override_] is a dict from role
    id to permission data; [None] stands for a missing key. *)
Record CategoryCleanedData := mkCategoryCleaned {
  cd_cat_name : string;
  cd_is_indexed : bool;
  _perms_override_ : option (gmap Z PermsData);
  _add_override_roles_ : list Role;
  _remove_override_roles_ : list Role
}.

(** The body of the loop over [roles_data.items()]: a fresh override row
    for [role_id], then its two relations. *)
Definition create_override (registry : gset string)
    (entry : Z * PermsData) : RolePermissionsOverride :=
  let '(role_id, perms_data) := entry in
  let perms_override := RolePermissionsOverride_create role_id in
  let perms_override :=
    match allow perms_data with
    | [] => perms_override
    | _ :: _ =>
        {| ov_role := ov_role perms_override;
           ov_permissions := Permission_filter registry (allow perms_data);
           ov_restrictions := ov_restrictions perms_override |}
    end in
  match deny perms_data with
  | [] => perms_override
  | _ :: _ =>
      {| ov_role := ov_role perms_override;
         ov_permissions := ov_permissions perms_override;
         ov_restrictions := Permission_filter registry (deny perms_data) |}
  end.

(** [instance.permissions_override] replaced by [l]. *)
Definition with_overrides (instance : Category)
    (l : list RolePermissionsOverride) : Category :=
  {| cat_name := cat_name instance;
     is_indexed := is_indexed instance;
     permissions_override := l |}.

(** [CategoryForm.save]. *)
Definition CategoryForm_save (registry : gset string) (instance : Category)
    (cleaned_data : CategoryCleanedData) : Category :=
  (* instance = super().save(commit=False); instance.save() *)
  let instance :=
    {| cat_name := cd_cat_name cleaned_data;
       is_indexed := cd_is_indexed cleaned_data;
       permissions_override := permissions_override instance |} in
  (* roles_data = self.cleaned_data.get('_perms_override_', {}) *)
  let roles_data : gmap Z PermsData :=
    default ∅ (_perms_override_ cleaned_data) in
  let instance :=
    if bool_decide (roles_data ≠ ∅) then
      (* instance.permissions_override.all().delete() *)
      let instance := with_overrides instance [] in
      let overrides := create_override registry <$> map_to_list roles_data in
      (* instance.permissions_override.add( *overrides) *)
      with_overrides instance (permissions_override instance ++ overrides)
    else instance in
  let roles_to_override := _add_override_roles_ cleaned_data in
  let instance :=
    match roles_to_override with
    | [] => instance
    | _ :: _ =>
        let overrides :=
          (λ role, RolePermissionsOverride_create (role_id role))
            <$> roles_to_override in
        with_overrides instance (permissions_override instance ++ overrides)
    end in
  let roles_to_cancel_override := _remove_override_roles_ cleaned_data in
  match roles_to_cancel_override with
  | [] => instance
  | _ :: _ =>
      (* ...all().filter(role__in=roles_to_cancel_override).delete() *)
      with_overrides instance
        (filter (λ o, ov_role o ∉ role_id <$> roles_to_cancel_override)
           (permissions_override instance))
  end.

End Forms.

Export Forms.

(** ** The admin classes of [web/admin.py] *)

(** An HTTP request, as far as the admin code reads it: [request.user]. *)
Record Request := mkRequest {
  user : User
}.

(** The user table and the user-to-roles relation (role ids per user id). *)
Record UserDB := mkUserDB {
  users : gmap Z User;
  user_roles : gmap Z (gset Z)
}.

(** [u.roles.all()], read from the relation by primary key. *)
Definition roles_all (u : User) (db : UserDB) : gset Z :=
  match pk u with
  | Some i => default ∅ (user_roles db !! i)
  | None => ∅
  end.

(** [u.roles.set(rs)], written to the relation by primary key. *)
Definition roles_set (u : User) (rs : gset Z) (db : UserDB) : UserDB :=
  match pk u with
  | Some i => {| users := users db; user_roles := <[i := rs]> (user_roles db) |}
  | None => db
  end.

(** [obj.save()]: an update of the row with the object's key, or an insert
    under the next free key when the object has none. *)
Definition User_save (obj : User) (db : UserDB) : User * UserDB :=
  match pk obj with
  | Some i =>
      (obj, {| users := <[i := obj]> (users db); user_roles := user_roles db |})
  | None =>
      let i := 1 + foldr Z.max 0 (elements (dom (users db))) in
      let obj :=
        {| pk := Some i;
           username := username obj;
           email := email obj;
           is_active := is_active obj;
           is_superuser := is_superuser obj |} in
      (obj, {| users := <[i := obj]> (users db); user_roles := user_roles db |})
  end.

Module AdvancedUserAdmin.

Section Admin.

(** The [operation_index] property and the [has_perm] method of the user
    model, and the [UserAdmin] method the override falls back on; none of
    them is defined in the admin module. *)
Variable operation_index : User → Z.
Variable has_perm : User → string → bool.
Variable super_has_change_permission : Request → option User → bool.

(** [AdvancedUserAdmin.get_readonly_fields]. *)
Definition get_readonly_fields (super_readonly_fields : list string)
    (request : Request) (obj : option User) : list string :=
  let readonly_fields := super_readonly_fields in
  if negb (is_superuser (user request))
  then readonly_fields ++ ["is_superuser"%string]
  else readonly_fields.

(** [AdvancedUserAdmin.formfield_for_manytomany]: the [disabled] entry of
    [kwargs] as it is passed on to the parent class. *)
Definition formfield_for_manytomany (db_field_name : string)
    (request : Request) (kwargs_disabled : bool) : bool :=
  if bool_decide (db_field_name = "roles"%string)
     && negb (has_perm (user request) "roles.manage_roles"%string)
  then true
  else kwargs_disabled.

(** [AdvancedUserAdmin.has_change_permission]. *)
Definition has_change_permission (request : Request) (obj : option User)
  : bool :=
  match obj with
  | Some o =>
      if negb (is_superuser (user request))
         && (operation_index o <=? operation_index (user request))
      then false
      else super_has_change_permission request obj
  | None => super_has_change_permission request obj
  end.

(** [AdvancedUserAdmin.save_model]. [None] is the [DoesNotExist] raised by
    [User.objects.get]; otherwise the saved object and the new tables. *)
Definition save_model (request : Request) (obj : User) (change : bool)
    (db : UserDB) : option (User * UserDB) :=
  match pk obj with
  | Some i =>
      if negb (i =? 0) then
        match users db !! i with
        | Some target =>
            if change then
              let obj :=
                if negb (is_superuser (user request))
                then {| pk := pk obj;
                        username := username obj;
                        email := email obj;
                        is_active := is_active obj;
                        is_superuser := is_superuser target |}
                else obj in
              let db :=
                if negb (has_perm (user request) "roles.manage_roles"%string)
                then roles_set obj (roles_all target db) db
                else db in
              Some (User_save obj db)
            else Some (User_save obj db)
        | None => None
        end
      else Some (User_save obj db)
  | None => Some (User_save obj db)
  end.

(** What a submitted change of a user ends in: no such row, the
    [PermissionDenied] of the record-level guard, the form shown again with
    its errors, the [DoesNotExist] of [save_model], or the saved object and
    the new tables. *)
Inductive ChangeOutcome :=
| NotFound
| Denied
| Invalid
| Missing
| Saved (obj : User) (db : UserDB).

(** The field table of the change form for [request]: the [roles] field
    as [formfield_for_manytomany] passes it to the parent class, over all
    roles ([roles_required] is what the model field says about blank
    values), then [AdvancedUserChangeForm.__init__]. *)
Definition change_form_fields (Role_objects : list Role)
    (roles_required : bool) (request : Request)
  : gmap string ModelMultipleChoiceField :=
  AdvancedUserChangeForm_init Role_objects
    {[ "roles"%string :=
         {| queryset := Role_objects;
            required := roles_required;
            disabled := formfield_for_manytomany "roles" request false |} ]}.

(** A submitted change of a user, through the methods above in the order
    in which Django's [ModelAdmin] change view calls them: the stored row
    is fetched and put to [has_change_permission]; the form is built and
    its [roles] field cleaned, from the stored roles when the field is
    disabled and from the submitted keys otherwise; [save_model] saves
    [obj], the stored object with the form's other fields applied; and the
    cleaned roles are written to the relation. *)
Definition change_user (Role_objects : list Role) (roles_required : bool)
    (request : Request) (obj : User) (submitted_roles : list Z)
    (db : UserDB) : ChangeOutcome :=
  match pk obj ≫= λ i, users db !! i with
  | None => NotFound
  | Some stored =>
      if negb (has_change_permission request (Some stored)) then Denied
      else
        match change_form_fields Role_objects roles_required request
              !! "roles"%string with
        | Some field =>
            let value :=
              if disabled field then elements (roles_all obj db)
              else submitted_roles in
            match ModelMultipleChoiceField_clean field value with
            | Some cleaned =>
                match save_model request obj true db with
                | Some (obj, db) =>
                    Saved obj
                      (roles_set obj (list_to_set (role_id <$> cleaned)) db)
                | None => Missing
                end
            | None => Invalid
            end
        | None =>
            match save_model request obj true db with
            | Some (obj, db) => Saved obj db
            | None => Missing
            end
        end
  end.

End Admin.

End AdvancedUserAdmin.

Module RoleAdmin.

Section Admin.

Variable operation_index : User → Z.
Variable super_has_delete_permission : Request → option Role → bool.
Variable super_has_change_permission : Request → option Role → bool.

(** [RoleAdmin.has_delete_permission]. *)
Definition has_delete_permission (request : Request) (obj : option Role)
  : bool :=
  match obj with
  | Some o =>
      if bool_decide (slug o ∈ default_slugs)
      then false
      else super_has_delete_permission request obj
  | None => super_has_delete_permission request obj
  end.

(** [RoleAdmin.has_change_permission]. *)
Definition has_change_permission (request : Request) (obj : option Role)
  : bool :=
  match obj with
  | Some o =>
      if negb (is_superuser (user request))
         && (index o <? operation_index (user request))
      then false
      else super_has_change_permission request obj
  | None => super_has_change_permission request obj
  end.

(** [RoleAdmin.get_readonly_fields]; [readonly_fields] is the class
    attribute [self.readonly_fields]. *)
Definition get_readonly_fields (readonly_fields : list string)
    (request : Request) (obj : option Role) : list string :=
  match obj with
  | Some o =>
      if bool_decide (slug o ∈ default_slugs)
      then readonly_fields ++ ["slug"%string]
      else readonly_fields
  | None => readonly_fields
  end.

End Admin.

End RoleAdmin.

(** ** Sample data for the worked examples *)

Module Samples.

Definition admin_user : User :=
  {| pk := Some 1; username := "admin"; email := "admin@example.org";
     is_active := true; is_superuser := false |}.

Definition peer_user : User :=
  {| pk := Some 2; username := "peer"; email := "peer@example.org";
     is_active := true; is_superuser := false |}.

Definition reader_user : User :=
  {| pk := Some 3; username := "reader"; email := "reader@example.org";
     is_active := true; is_superuser := false |}.

(** Both [admin_user] and [peer_user] hold a role of rank 2; every other
    user sits at rank 7. *)
Definition sample_operation_index (u : User) : Z :=
  match pk u with
  | Some 1 => 2
  | Some 2 => 2
  | _ => 7
  end.

(** The parent class grants every request. *)
Definition grant_all {A : Type} (request : Request) (obj : option A) : bool :=
  true.

(** The parent class refuses every request: the actor lacks the model's
    change permission. *)
Definition refuse_all {A : Type} (request : Request) (obj : option A)
  : bool := false.

Definition role_everyone : Role :=
  {| role_id := 1; slug := "everyone"; name := "Everyone"; index := 9;
     is_staff := false; permissions := {["view_articles"%string]};
     restrictions := ∅ |}.

Definition role_registered : Role :=
  {| role_id := 2; slug := "registered"; name := "Registered"; index := 8;
     is_staff := false; permissions := {["edit_articles"%string]};
     restrictions := ∅ |}.

(** A staff role of rank 2, the rank of [admin_user]. *)
Definition role_moderator : Role :=
  {| role_id := 3; slug := "moderator"; name := "Moderator"; index := 2;
     is_staff := true; permissions := {["delete_articles"%string]};
     restrictions := ∅ |}.

Definition sample_roles : list Role :=
  [role_everyone; role_registered; role_moderator].

Definition registry : gset string :=
  {["view_articles"; "edit_articles"; "delete_articles"]}%string.

(** Three role edits: one without permission data, one listing
    [view_articles] on both sides, one with separate lists. *)
Definition role_edit_no_perms : RoleCleanedData :=
  {| cd_slug := "mods"; cd_name := "Mods"; cd_is_staff := false;
     _perms_ := None |}.

Definition role_edit_overlap : RoleCleanedData :=
  {| cd_slug := "moderator"; cd_name := "Moderator"; cd_is_staff := true;
     _perms_ := Some {| allow := ["view_articles"%string];
                        deny := ["view_articles"%string] |} |}.

Definition role_edit_disjoint : RoleCleanedData :=
  {| cd_slug := "moderator"; cd_name := "Moderator"; cd_is_staff := true;
     _perms_ := Some {| allow := ["view_articles"%string];
                        deny := ["edit_articles"%string] |} |}.

(** A category that overrides the moderator role, denying it
    [delete_articles]. *)
Definition moderator_override : RolePermissionsOverride :=
  {| ov_role := 3; ov_permissions := ∅;
     ov_restrictions := {["delete_articles"%string]} |}.

Definition category_drafts : Category :=
  {| cat_name := "drafts"; is_indexed := true;
     permissions_override := [moderator_override] |}.

Definition category_plain : Category :=
  {| cat_name := "plain"; is_indexed := true; permissions_override := [] |}.

(** A category that overrides two roles: the moderator role as above, and
    the everyone role, denying it [view_articles]. *)
Definition everyone_override : RolePermissionsOverride :=
  {| ov_role := 1; ov_permissions := ∅;
     ov_restrictions := {["view_articles"%string]} |}.

Definition category_archive : Category :=
  {| cat_name := "archive"; is_indexed := false;
     permissions_override := [moderator_override; everyone_override] |}.

(** Category edits: an empty submission map; override data for the
    moderator role together with a request to add the registered role; and
    override data for the moderator role together with a request to add
    that same role. *)
Definition category_edit_empty : CategoryCleanedData :=
  {| cd_cat_name := "drafts"; cd_is_indexed := true;
     _perms_override_ := Some ∅;
     _add_override_roles_ := [];
     _remove_override_roles_ := [] |}.

Definition moderator_perms : PermsData :=
  {| allow := ["view_articles"%string]; deny := [] |}.

Definition category_edit_replace : CategoryCleanedData :=
  {| cd_cat_name := "drafts"; cd_is_indexed := true;
     _perms_override_ := Some {[ 3 := moderator_perms ]};
     _add_override_roles_ := [role_registered];
     _remove_override_roles_ := [] |}.

Definition category_edit_twice : CategoryCleanedData :=
  {| cd_cat_name := "plain"; cd_is_indexed := true;
     _perms_override_ := Some {[ 3 := moderator_perms ]};
     _add_override_roles_ := [role_moderator];
     _remove_override_roles_ := [] |}.

(** A user table holding [reader_user], who has the moderator role, and
    an edit of that row that renames the user and asks for the superuser
    flag. *)
Definition sample_db : UserDB :=
  {| users := {[ 3 := reader_user ]};
     user_roles := {[ 3 := {[ 3 ]} ]} |}.

Definition reader_edit : User :=
  {| pk := Some 3; username := "reader2"; email := "reader2@example.org";
     is_active := false; is_superuser := true |}.

(** An actor without any capability, and one with every capability. *)
Definition no_perm (u : User) (perm : string) : bool := false.

Definition all_perms (u : User) (perm : string) : bool := true.




End Samples.

(** ** [CategoryForm.__init__] of [web/admin.py] *)

Module CategoryFormInit.

(** [Role.objects.filter(rolepermissionsoverride__in=
    instance.permissions_override.all())]: the join yields a role once for
    each of its overrides in the category. *)
Definition overrided_roles (Role_objects : list Role) (instance : Category)
  : list Role :=
  role ← Role_objects;
  override ← permissions_override instance;
  if decide (ov_role override = role_id role) then [role] else [].

(** [CategoryForm.__init__]: the fields [_add_override_roles_] and
    [_remove_override_roles_] as the form offers them. Both are declared
    with [queryset=QuerySet(Role)] and [required=False]. *)
Definition CategoryForm_init (Role_objects : list Role)
    (instance : option Category)
  : ModelMultipleChoiceField * ModelMultipleChoiceField :=
  match instance with
  | Some instance =>
      let overrided_roles := overrided_roles Role_objects instance in
      ({| queryset :=
            filter (λ role, role_id role ∉ role_id <$> overrided_roles)
              Role_objects;
          required := false;
          disabled := false |},
       {| queryset := overrided_roles;
          required := false;
          disabled := false |})
  | None =>
      ({| queryset := Role_objects; required := false; disabled := false |},
       {| queryset := Role_objects; required := false; disabled := true |})
  end.

(** Every set of every override holds registered codenames only. *)
Definition registered_only (registry : gset string)
    (l : list RolePermissionsOverride) : Prop :=
  Forall (λ o, ov_permissions o ⊆ registry ∧ ov_restrictions o ⊆ registry) l.

End CategoryFormInit.

(** ** [web/views/api/search.py] *)

Module Search.

(** The page size of [SearchView.get]. [int] is Python's conversion of a
    string to an integer, [None] standing for [ValueError]; [GET_limit] is
    the [limit] entry of the query string, if any. *)
Definition search_limit (int : string → option Z) (GET_limit : option string)
  : Z :=
  match int (default "25"%string GET_limit) with
  | Some limit =>
      let limit := if limit <? 1 then 1 else limit in
      let limit := if limit >? 25 then 25 else limit in
      limit
  | None => 25
  end.

(** [p] occurs in [s] at offset [i]: [s[i:i+len(p)] == p] with
    [i <= len(s)]. *)
Fixpoint occurs_at (p s : string) (i : nat) : bool :=
  match i, s with
  | O, _ => String.prefix p s
  | S i', String _ s' => occurs_at p s' i'
  | S _, EmptyString => false
  end.

(** [s.find(p, start)] for a start that is not negative: the lowest offset
    from [start] on at which [p] occurs, or [-1]. *)
Definition find (p s : string) (start : Z) : Z :=
  match String.index (Z.to_nat start) p s with
  | Some i => Z.of_nat i
  | None => -1
  end.

(** The [while] loop of [SearchView.findall]; [fuel] bounds the number of
    iterations. *)
Fixpoint findall_loop (fuel : nat) (p s : string) (i : Z)
    (positions : list Z) : list Z :=
  match fuel with
  | O => positions
  | S fuel =>
      if i =? -1 then positions
      else findall_loop fuel p s (find p s (i + 1)) (positions ++ [i])
  end.

(** [SearchView.findall]. Every iteration moves [i] forward by at least
    one, and no offset exceeds [len(s)], so [len(s) + 2] iterations are
    enough for the loop to reach its exit. *)
Definition findall (p s : string) : list Z :=
  findall_loop (S (S (String.length s))) p s (find p s 0) [].

(** A range of [get_excerpts]: the tuple
    [(len(word), word_start, word_end)]. *)
Definition Range : Type := Z * Z * Z.

Definition range_word (r : Range) : Z := r.1.1.
Definition range_start (r : Range) : Z := r.1.2.
Definition range_end (r : Range) : Z := r.2.

(** The body of the loop over [word_positions]: the occurrence at
    [position], widened by [offset] on both sides and cut to the text. *)
Definition excerpt_range (offset text_len word_len position : Z) : Range :=
  let word_start := position in
  let word_end := word_len + word_start in
  let word_start := Z.max 0 (word_start - offset) in
  let word_end := Z.min text_len (word_end + offset) in
  (word_len, word_start, word_end).

(** Step 4 of [get_excerpts]: the ranges of all occurrences of the words,
    short words being skipped when a long one is present. *)
Definition collect_ranges (original_to_search : string)
    (words_to_search : list string) : list Range :=
  let offset := 30 in
  let word_length_cutoff := 2 in
  let has_long_words :=
    existsb (λ x, Z.of_nat (String.length x) >? word_length_cutoff)
      words_to_search in
  word ← words_to_search;
  if has_long_words && (Z.of_nat (String.length word) <=? word_length_cutoff)
  then []
  else
    (λ position,
       excerpt_range offset (Z.of_nat (String.length original_to_search))
         (Z.of_nat (String.length word)) position)
      <$> findall word original_to_search.

(** [list.sort] with a key, as a stable insertion sort: [leb a b] says that
    the key of [a] is at most the key of [b]. *)
Fixpoint insert_sorted {A : Type} (leb : A → A → bool) (x : A) (l : list A)
  : list A :=
  match l with
  | [] => [x]
  | y :: l' => if leb x y then x :: l else y :: insert_sorted leb x l'
  end.

Definition stable_sort {A : Type} (leb : A → A → bool) (l : list A)
  : list A :=
  foldr (insert_sorted leb) [] l.

(** [key=lambda x: x[1]]. *)
Definition by_start (a b : Range) : bool := range_start a <=? range_start b.

(** [key=lambda x: (-x[0], x[1])], tuples compared lexicographically. *)
Definition by_word_then_start (a b : Range) : bool :=
  (- range_word a <? - range_word b)
  || ((- range_word a =? - range_word b)
      && (range_start a <=? range_start b)).

(** The [while] loop of step 5, on the list and the index [i];
    [fuel] bounds the number of iterations. *)
Fixpoint merge_loop (fuel : nat) (i : nat) (ranges : list Range)
  : list Range :=
  match fuel with
  | O => ranges
  | S fuel =>
      if Z.of_nat i <? Z.of_nat (length ranges) - 1 then
        match ranges !! i, ranges !! S i with
        | Some a, Some b =>
            if range_start b <? range_end a then
              let ranges :=
                <[i := (Z.max (range_word a) (range_word b),
                        range_start a, range_end b)]> ranges in
              merge_loop fuel i (delete (S i) ranges)
            else merge_loop fuel (S i) ranges
        | _, _ => ranges
        end
      else ranges
  end.

(** Step 5 of [get_excerpts]. Every iteration either removes a range or
    advances [i], so [len(ranges)] iterations are enough. *)
Definition merge_ranges (ranges : list Range) : list Range :=
  merge_loop (length ranges) 0 ranges.

(** The same merge by recursion on the ranges still to visit: [a] is
    [ranges[i]], [rest] is [ranges[i+1:]]. *)
Fixpoint merge_from (a : Range) (rest : list Range) : list Range :=
  match rest with
  | [] => [a]
  | b :: rest' =>
      if range_start b <? range_end a
      then merge_from (Z.max (range_word a) (range_word b),
                       range_start a, range_end b) rest'
      else a :: merge_from b rest'
  end.

(** [original[excerpt_start:excerpt_end]] for offsets within the text. *)
Definition slice (original : string) (excerpt_start excerpt_end : Z)
  : string :=
  String.substring (Z.to_nat excerpt_start)
    (Z.to_nat (excerpt_end - excerpt_start)) original.

(** The loop of step 8 over [range(len(excerpts))]; [rest] is
    [excerpts[i:]]. *)
Fixpoint truncate_loop (max_excerpt_len : Z) (excerpts : list string)
    (i : nat) (rest : list string) (combined_len : Z) : list string :=
  match rest with
  | [] => excerpts
  | e :: rest' =>
      let combined_len := combined_len + Z.of_nat (String.length e) in
      if combined_len >? max_excerpt_len then take i excerpts
      else truncate_loop max_excerpt_len excerpts (S i) rest' combined_len
  end.

(** Step 8 of [get_excerpts]. *)
Definition truncate_excerpts (excerpts : list string) : list string :=
  truncate_loop 1024 excerpts 0 excerpts 0.

(** Steps 3 to 6 of [SearchView.get_excerpts]: the ranges to cut out, from
    the lowered text after the first paragraph and the lowered,
    deduplicated words in the order [sorted] left them. *)
Definition excerpt_ranges (original_to_search : string)
    (words_to_search : list string) : list Range :=
  let ranges := collect_ranges original_to_search words_to_search in
  let ranges := stable_sort by_start ranges in
  let ranges := merge_ranges ranges in
  let ranges := stable_sort by_word_then_start ranges in
  take 25 ranges.

(** Steps 3 to 8 of [SearchView.get_excerpts]; [original] is the text
    after the first paragraph and [original_to_search] its lowered form. *)
Definition cut_excerpts (original original_to_search : string)
    (words_to_search : list string) : list string :=
  let ranges := excerpt_ranges original_to_search words_to_search in
  let excerpts :=
    (λ r, slice original (range_start r) (range_end r)) <$> ranges in
  truncate_excerpts excerpts.

(** The separator ['\n\n']. *)
Definition paragraph_break : string :=
  String (Ascii.ascii_of_nat 10) (String (Ascii.ascii_of_nat 10) EmptyString).

(** [SearchView.get_excerpts]. [content] is the article text the search
    mode selects, [lower] is [str.lower], and [words_to_search] is the list
    step 2 builds: the lowered words, deduplicated and sorted by falling
    length (the order among words of equal length is that of Python's set
    iteration). *)
Definition get_excerpts (lower : string → string) (content : string)
    (words_to_search : list string) : list string :=
  (* original = original.split('\n\n', 1) *)
  match String.index 0 paragraph_break content with
  | None => []
  | Some i =>
      let original :=
        String.substring (i + 2) (String.length content - (i + 2)) content in
      let original_to_search := lower original in
      cut_excerpts original original_to_search words_to_search
  end.

(** Vocabulary for the statements about ranges and excerpts. *)

(** Each element is related to the next one. *)
Fixpoint chain {A : Type} (R : A → A → Prop) (a : A) (rest : list A)
  : Prop :=
  match rest with
  | [] => True
  | b :: rest' => R a b ∧ chain R b rest'
  end.

Definition chained {A : Type} (R : A → A → Prop) (l : list A) : Prop :=
  match l with
  | [] => True
  | a :: rest => chain R a rest
  end.

(** No range reaches into the next one. *)
Definition separated (ranges : list Range) : Prop :=
  chained (λ a b, range_end a ≤ range_start b) ranges.

(** Two ranges share no offset. *)
Definition disjoint_ranges (a b : Range) : Prop :=
  range_end a ≤ range_start b ∨ range_end b ≤ range_start a.

(** A range is a window of a text of length [n]. *)
Definition in_text (n : Z) (r : Range) : Prop :=
  0 ≤ range_start r ∧ range_start r ≤ range_end r ∧ range_end r ≤ n.

(** The combined length of a list of excerpts. *)
Definition combined_length (excerpts : list string) : Z :=
  foldr (λ e acc, Z.of_nat (String.length e) + acc) 0 excerpts.

End Search.

(** ** [web/middleware.py] *)

Module Middleware.

Import Stdlib.Strings.Ascii.

(** The separators the middleware splits on. *)
Definition colon : ascii := ":"%char.
Definition comma : ascii := ","%char.

(** [c in s] for a single character. *)
Fixpoint contains_char (c : Ascii.ascii) (s : string) : bool :=
  match s with
  | EmptyString => false
  | String a s' => if Ascii.eqb a c then true else contains_char c s'
  end.

(** [s.split(c)[0]]: the part of [s] before the first [c], all of [s] when
    there is none. *)
Fixpoint before_char (c : Ascii.ascii) (s : string) : string :=
  match s with
  | EmptyString => EmptyString
  | String a s' => if Ascii.eqb a c then EmptyString
                   else String a (before_char c s')
  end.

(** A row of the [Site] model: the two domains the middleware reads. *)
Record Site := mkSite {
  domain : string;
  media_domain : string
}.

(** An [HttpRequest], as far as the middleware reads it. *)
Record HttpRequest := mkHttpRequest {
  get_host : string;
  path : string;
  get_full_path : string;
  META : gmap string string;
  headers : gmap string string;
  COOKIES : gmap string string
}.

(** An [HttpResponse]: its headers and the names passed to
    [delete_cookie]. *)
Record HttpResponse := mkHttpResponse {
  response_headers : gmap string string;
  deleted_cookies : list string
}.

Definition set_header (name value : string) (response : HttpResponse)
  : HttpResponse :=
  {| response_headers := <[name := value]> (response_headers response);
     deleted_cookies := deleted_cookies response |}.

Definition delete_cookie (name : string) (response : HttpResponse)
  : HttpResponse :=
  {| response_headers := response_headers response;
     deleted_cookies := deleted_cookies response ++ [name] |}.

(** What [MediaHostMiddleware.__call__] ends in: the [PermissionDenied]
    exception, the [no_site.html] page, a redirect, or the response of the
    rest of the chain, handled with [current_site] set. *)
Inductive MediaHostOutcome :=
| PermissionDenied
| NoSitePage
| Redirect (location : string)
| Handled (current_site : Site) (response : HttpResponse).

(** [Site.objects.filter(Q(domain=raw_host) | Q(media_domain=raw_host))]. *)
Definition sites_for_host (Site_objects : list Site) (raw_host : string)
  : list Site :=
  filter (λ site, domain site = raw_host ∨ media_domain site = raw_host)
    Site_objects.

Definition media_prefixes : list string :=
  ["local--files"; "local--code"; "local--html"; "local--theme"]%string.

(** [request.get_host().split(':')[0] == site.media_domain]. *)
Definition is_media_host (request : HttpRequest) (site : Site) : bool :=
  bool_decide (before_char colon (get_host request) = media_domain site).

(** [bool([x for x in media_prefixes
           if request.path.startswith(f'/{x}/')])]. *)
Definition is_media_url (request : HttpRequest) : bool :=
  existsb (λ x, String.prefix ("/" ++ x ++ "/")%string (path request))
    media_prefixes.

(** The first step of [MediaHostMiddleware.__call__]: the sites matching
    the host with its port, then those matching the bare host. *)
Definition possible_sites (Site_objects : list Site) (request : HttpRequest)
  : list Site :=
  let raw_host := get_host request in
  let possible_sites :=
    match META request !! "SERVER_PORT"%string with
    | Some port =>
        if negb (contains_char colon raw_host)
        then sites_for_host Site_objects (raw_host ++ ":" ++ port)%string
        else []
    | None => []
    end in
  match possible_sites with
  | [] =>
      let raw_host := before_char colon (get_host request) in
      sites_for_host Site_objects raw_host
  | _ :: _ => possible_sites
  end.

(** [MediaHostMiddleware.__call__]; [get_response] is the rest of the
    middleware chain. *)
Definition MediaHostMiddleware_call (Site_objects : list Site)
    (get_response : HttpRequest → HttpResponse) (request : HttpRequest)
  : MediaHostOutcome :=
  match possible_sites Site_objects request with
  | [] =>
      (* if Site.objects.exists() *)
      match Site_objects with
      | _ :: _ => PermissionDenied
      | [] => NoSitePage
      end
  | site :: _ =>
      let is_media_host := is_media_host request site in
      let is_media_url := is_media_url request in
      let redirect :=
        if bool_decide (media_domain site ≠ domain site) then
          let non_media_host := domain site in
          if is_media_host && negb is_media_url then
            Some ("//" ++ non_media_host ++ get_full_path request)%string
          else if negb is_media_host && is_media_url then
            Some ("//" ++ media_domain site ++ get_full_path request)%string
          else None
        else None in
      match redirect with
      | Some location => Redirect location
      | None =>
          let response := get_response request in
          let response :=
            if is_media_host
               || (bool_decide (domain site = media_domain site)
                   && is_media_url)
            then set_header "Access-Control-Allow-Origin" "*" response
            else
              set_header "X-Frame-Options" "DENY"
                (set_header "X-Content-Type-Options" "nosniff" response) in
          Handled site response
      end
  end.


(** [ForwardedPortMiddleware.__call__]: the [META] the request goes on
    with, or [None] for the [KeyError] of a request without
    [HTTP_HOST]. *)
Definition ForwardedPortMiddleware_call (meta : gmap string string)
  : option (gmap string string) :=
  match meta !! "HTTP_HOST"%string with
  | Some host => Some (<["HTTP_HOST"%string := before_char colon host]> meta)
  | None => None
  end.

(** [SpyRequestMiddleware.__call__]: the value stored as
    [current_client_ip]. *)
Definition current_client_ip (meta : gmap string string) : option string :=
  let x_forwarded_for := meta !! "HTTP_X_FORWARDED_FOR"%string in
  match x_forwarded_for with
  | Some (String a s) => Some (before_char comma (String a s))
  | Some EmptyString | None => meta !! "REMOTE_ADDR"%string
  end.

Definition wikidot_cookies : list string :=
  ["wikidot_token7"; "wikidot_udsession"; "WIKIDOT_SESSION_ID"]%string.

(** The body of the loop of [DropWikidotAuthMiddleware.__call__]. *)
Definition drop_wikidot_cookie (response : HttpResponse) (cookie : string)
  : HttpResponse :=
  let response :=
    if bool_decide (cookie ∈ wikidot_cookies)
    then delete_cookie cookie response else response in
  if String.prefix "WIKIDOT_SESSION_ID_" cookie
  then delete_cookie cookie response else response.

(** [DropWikidotAuthMiddleware.__call__]: the loop over the names in
    [request.COOKIES], on the response of the rest of the chain. *)
Definition DropWikidotAuthMiddleware_call
    (get_response : HttpRequest → HttpResponse) (request : HttpRequest)
  : HttpResponse :=
  foldl drop_wikidot_cookie (get_response request)
    (map_to_list (COOKIES request)).*1.

(** A user row as [BotAuthTokenMiddleware] queries it. *)
Record Account := mkAccount {
  account_id : Z;
  account_type : string;
  api_key : option string
}.

(** The outcome of [objects.get]. *)
Inductive GetResult (A : Type) :=
| DoesNotExist
| MultipleObjectsReturned
| Found (a : A).

Arguments DoesNotExist {A}.
Arguments MultipleObjectsReturned {A}.
Arguments Found {A} a.

(** [User.objects.get(type="bot", api_key=token)]. *)
Definition get_bot (User_objects : list Account) (token : string)
  : GetResult Account :=
  match filter (λ u, account_type u = "bot"%string ∧ api_key u = Some token)
          User_objects with
  | [] => DoesNotExist
  | [u] => Found u
  | _ :: _ :: _ => MultipleObjectsReturned
  end.

(** The two attributes of the request that [BotAuthTokenMiddleware]
    assigns: [request.user] ([None] when it is not an account) and
    [csrf_processing_done]. *)
Record AuthState := mkAuthState {
  request_user : option Account;
  csrf_processing_done : bool
}.

(** [BotAuthTokenMiddleware.__call__]: the attributes the request goes on
    with; [None] when [MultipleObjectsReturned], which the code does not
    catch, ends the call. *)
Definition BotAuthTokenMiddleware_call (User_objects : list Account)
    (request : HttpRequest) (state : AuthState) : option AuthState :=
  match headers request !! "Authorization"%string with
  | Some authorization =>
      if String.prefix "Bearer " authorization then
        let token :=
          String.substring 7 (String.length authorization - 7)
            authorization in
        match get_bot User_objects token with
        | Found u =>
            Some {| request_user := Some u; csrf_processing_done := true |}
        | DoesNotExist => Some state
        | MultipleObjectsReturned => None
        end
      else Some state
  | None => Some state
  end.

End Middleware.

(** Sample data for the worked examples of the middleware. *)

Module MiddlewareSamples.

Import Middleware.

Definition wiki_site : Site :=
  {| domain := "wiki.example"; media_domain := "files.example" |}.

Definition plain_response (request : HttpRequest) : HttpResponse :=
  {| response_headers := ∅; deleted_cookies := [] |}.

(** A request for an uploaded file, sent to the media host. *)
Definition file_request : HttpRequest :=
  {| get_host := "files.example:8000";
     path := "/local--files/page/a.png";
     get_full_path := "/local--files/page/a.png?v=2";
     META := {[ "SERVER_PORT"%string := "8000"%string;
                "HTTP_HOST"%string := "files.example:8000"%string ]};
     headers := ∅;
     COOKIES := ∅ |}.

(** A request for a page, sent to the media host. *)
Definition stray_request : HttpRequest :=
  {| get_host := "files.example";
     path := "/main";
     get_full_path := "/main";
     META := {[ "RAW_URI"%string := "/main?x=1"%string ]};
     headers := {[ "Authorization"%string := "Bearer s3cret"%string ]};
     COOKIES := {[ "wikidot_token7"%string := "1"%string;
                   "WIKIDOT_SESSION_ID_abc"%string := "2"%string;
                   "sessionid"%string := "3"%string ]} |}.

Definition bot_account : Account :=
  {| account_id := 5; account_type := "bot"; api_key := Some "s3cret"%string |}.

Definition human_account : Account :=
  {| account_id := 6; account_type := "normal";
     api_key := Some "s3cret"%string |}.

End MiddlewareSamples.

(** ** [web/views/api/files.py] *)

Module Files.

(** What an API handler ends in: an [APIError] with its status code, or a
    value. *)
Inductive ApiResult (A : Type) :=
| ApiError (code : Z)
| ApiOk (a : A).

Arguments ApiError {A} code.
Arguments ApiOk {A} a.

Section Validate.

(** Articles, categories and what names an article in a request (a name
    or an article); the controllers [articles.get_article] and
    [articles.get_article_category]; and [request.user.has_perm] on a
    category and on an article. *)
Variables Article Category Ref : Type.
Variable get_article : Ref → option Article.
Variable get_article_category : Ref → Category.
Variable has_perm_category : string → Category → bool.
Variable has_perm_article : string → Article → bool.

(** [FileView._validate_request]. *)
Definition _validate_request (article_name_or_article : Ref) (edit : bool)
  : ApiResult Article :=
  match get_article article_name_or_article with
  | None =>
      let category := get_article_category article_name_or_article in
      if negb (has_perm_category "roles.view_articles" category)
      then ApiError 403
      else ApiError 404
  | Some article =>
      if edit && negb (has_perm_article "roles.manage_article_files" article)
      then ApiError 403
      else ApiOk article
  end.

(** [GetOrUploadView.get] up to the point where the files are listed: the
    article whose files the response shows. *)
Definition GetOrUploadView_get (article_name : Ref) : ApiResult Article :=
  let category := get_article_category article_name in
  if negb (has_perm_category "roles.view_articles" category)
  then ApiError 403
  else _validate_request article_name false.

End Validate.

(** The outcome of the read loop of [GetOrUploadView.post]: the
    [APIError] with status 413, or the size counted and the bytes written
    to the file. *)
Inductive UploadResult :=
| UploadTooLarge
| Uploaded (size : Z) (written : list Byte.byte).

Section Upload.

(** [settings.MEDIA_UPLOAD_LIMIT], [settings.ABSOLUTE_MEDIA_UPLOAD_LIMIT]
    and the two values of [articles.get_file_space_usage()]. *)
Variables MEDIA_UPLOAD_LIMIT ABSOLUTE_MEDIA_UPLOAD_LIMIT : Z.
Variables current_files_size absolute_files_size : Z.

(** The size check inside the loop. *)
Definition over_limit (size : Z) : bool :=
  ((MEDIA_UPLOAD_LIMIT >? 0)
   && (current_files_size + size >? MEDIA_UPLOAD_LIMIT))
  || ((ABSOLUTE_MEDIA_UPLOAD_LIMIT >? 0)
      && (absolute_files_size + size >? ABSOLUTE_MEDIA_UPLOAD_LIMIT)).

(** The [while True] loop of [GetOrUploadView.post]. [chunks] are the
    values the successive calls of [request.read(102400)] return; once they
    are used up, [read] returns the empty chunk. *)
Fixpoint upload_loop (chunks : list (list Byte.byte)) (size : Z)
    (written : list Byte.byte) : UploadResult :=
  match chunks with
  | [] =>
      let chunk : list Byte.byte := [] in
      let size := size + Z.of_nat (length chunk) in
      if over_limit size then UploadTooLarge else Uploaded size written
  | chunk :: chunks =>
      let size := size + Z.of_nat (length chunk) in
      if over_limit size then UploadTooLarge
      else
        match chunk with
        | [] => Uploaded size written
        | _ :: _ => upload_loop chunks size (written ++ chunk)
        end
  end.

(** The bytes of the request body: the chunks up to the first empty
    one. *)
Fixpoint body (chunks : list (list Byte.byte)) : list Byte.byte :=
  match chunks with
  | [] => []
  | [] :: _ => []
  | chunk :: chunks => chunk ++ body chunks
  end.

End Upload.

End Files.

(** ** [web/views/bot.py] *)

Module Bot.

(** A user row as [CreateBotView] reads and writes it. *)
Record BotRow := mkBotRow {
  bot_username : string;
  bot_type : string
}.

(** [CreateBotView.form_valid]: the user table afterwards, and whether the
    success message (rather than the error message) was shown. *)
Definition CreateBotView_form_valid (User_objects : list BotRow)
    (username : string) : list BotRow * bool :=
  match filter (λ u, bot_username u = username) User_objects with
  | [] =>
      let bot := {| bot_username := username; bot_type := "bot" |} in
      (User_objects ++ [bot], true)
  | _ :: _ => (User_objects, false)
  end.

End Bot.

(** ** [web/views/api/articles.py] *)

Module Articles.

(** A JSON value as [json.loads] returns it. Numbers are integers; of an
    array or an object the validation reads the truth value only, so they
    are kept by their number of entries. *)
Inductive JSON :=
| JNull
| JBool (b : bool)
| JNum (z : Z)
| JStr (s : string)
| JList (entries : nat)
| JDict (entries : nat).

(** Python's truth value of a JSON value. *)
Definition truthy (v : JSON) : bool :=
  match v with
  | JNull => false
  | JBool b => b
  | JNum z => negb (z =? 0)
  | JStr s => negb (String.eqb s EmptyString)
  | JList entries => negb (Nat.eqb entries 0)
  | JDict entries => negb (Nat.eqb entries 0)
  end.

(** What [_validate_article_data] ends in: it returns, it raises an
    [APIError] (with a status code, or with the default one), or a string
    method is called on a value that has none. *)
Inductive Validation :=
| Valid
| Invalid (code : option Z)
| AttributeError.

Section Validate.

(** [articles.is_full_name_allowed], [str.strip] and
    [settings.ARTICLE_SOURCE_LIMIT]. *)
Variable is_full_name_allowed : JSON → bool.
Variable strip : string → string.
Variable ARTICLE_SOURCE_LIMIT : Z.

(** [not (data['source'] or '').strip()]: [None] when [strip] is called
    on a value that is not a string. *)
Definition source_is_blank (source : JSON) : option bool :=
  if truthy source then
    match source with
    | JStr s => Some (String.eqb (strip s) EmptyString)
    | _ => None
    end
  else Some true.

(** [ArticleView._validate_article_data]; [data] is the JSON object of
    the request. *)
Definition _validate_article_data (data : gmap string JSON)
    (allow_partial : bool) : Validation :=
  if bool_decide (data = ∅) then Invalid (Some 400) else
  if match data !! "pageId"%string with
     | None => true
     | Some pageId => negb (truthy pageId) || negb (is_full_name_allowed pageId)
     end
  then Invalid (Some 400) else
  let source_missing :=
    match data !! "source"%string with
    | None => Some true
    | Some source => source_is_blank source
    end in
  match source_missing with
  | None => AttributeError
  | Some source_missing =>
      if source_missing
         && negb (allow_partial
                  && bool_decide (data !! "source"%string = None))
      then Invalid (Some 400) else
      let title_missing :=
        match data !! "title"%string with
        | None => true
        | Some JNull => true
        | Some _ => false
        end in
      if title_missing
         && negb (allow_partial
                  && bool_decide (data !! "title"%string = None))
      then Invalid (Some 400) else
      match data !! "source"%string with
      | Some (JStr s) =>
          if Z.of_nat (String.length s) >? ARTICLE_SOURCE_LIMIT
          then Invalid None else Valid
      | _ => Valid
      end
  end.

End Validate.

End Articles.

(** * Properties *)

(** ** The authority guard *)

Section AuthorityGuard.

Variable operation_index : User → Z.

(** The user guard, for any answer of the parent class: the override
    refuses exactly the non-superusers that do not strictly outrank the
    target, and otherwise passes the parent's answer on. *)
Lemma user_has_change_permission_eq
    (sup : Request → option User → bool) request target :
  AdvancedUserAdmin.has_change_permission operation_index sup request
    (Some target)
  = (is_superuser (user request)
     || (operation_index (user request) <? operation_index target))
    && sup request (Some target).
Proof.
  unfold AdvancedUserAdmin.has_change_permission.
  destruct (is_superuser (user request)); simpl; [done|].
  destruct (Z.leb_spec (operation_index target)
              (operation_index (user request))) as [Hle|Hlt];
    destruct (Z.ltb_spec (operation_index (user request))
                (operation_index target)); simpl; try done; lia.
Qed.

(** The role guard, for any answer of the parent class: the override
    refuses exactly the non-superusers whose operation index is strictly
    greater than the role's index. *)
Lemma role_has_change_permission_eq
    (sup : Request → option Role → bool) request role :
  RoleAdmin.has_change_permission operation_index sup request (Some role)
  = (is_superuser (user request)
     || (operation_index (user request) <=? index role))
    && sup request (Some role).
Proof.
  unfold RoleAdmin.has_change_permission.
  destruct (is_superuser (user request)); simpl; [done|].
  destruct (Z.ltb_spec (index role) (operation_index (user request)));
    destruct (Z.leb_spec (operation_index (user request)) (index role));
    simpl; try done; lia.
Qed.

End AuthorityGuard.

(** C4, as the design document words it, fails where the parent
    [UserAdmin] check refuses: [admin_user], of operation index 2, strictly
    outranks [reader_user], of operation index 7, and is still turned
    away. *)
Lemma user_guard_parent_refuses_counterexample :
  ¬ (AdvancedUserAdmin.has_change_permission Samples.sample_operation_index
       Samples.refuse_all (mkRequest Samples.admin_user)
       (Some Samples.reader_user) = true
     ↔ is_superuser Samples.admin_user = true
       ∨ Samples.sample_operation_index Samples.admin_user
         < Samples.sample_operation_index Samples.reader_user).
Proof.
  intros [_ Hclaim].
  assert (Hlt : Samples.sample_operation_index Samples.admin_user
                < Samples.sample_operation_index Samples.reader_user)
    by (vm_compute; reflexivity).
  specialize (Hclaim (or_intror Hlt)).
  vm_compute in Hclaim. discriminate Hclaim.
Qed.

(** C4, amended. An actor may change a target user if and only if the
    parent [UserAdmin] check grants the request and the actor is a
    superuser or has an operation index strictly less than the target's;
    with equal indices a non-superuser actor is refused, whatever the
    parent check answers. *)
Theorem user_guard_strict
    (operation_index : User → Z) (sup : Request → option User → bool)
    (request : Request) (target : User) :
  (AdvancedUserAdmin.has_change_permission operation_index sup request
     (Some target) = true
   ↔ (is_superuser (user request) = true
      ∨ operation_index (user request) < operation_index target)
     ∧ sup request (Some target) = true)
  ∧ (is_superuser (user request) = false →
     operation_index (user request) = operation_index target →
     AdvancedUserAdmin.has_change_permission operation_index sup request
       (Some target) = false).
Proof.
  rewrite user_has_change_permission_eq.
  split.
  - rewrite andb_true_iff, orb_true_iff, Z.ltb_lt. tauto.
  - intros -> Heq. simpl.
    destruct (Z.ltb_spec (operation_index (user request))
                (operation_index target)) as [Hlt|_]; [lia | done].
Qed.

(** The peer case on the sample data, read off the theorem: [admin_user]
    and [peer_user] share operation index 2. *)
Lemma user_guard_strict_witness :
  AdvancedUserAdmin.has_change_permission Samples.sample_operation_index
    Samples.grant_all (mkRequest Samples.admin_user)
    (Some Samples.peer_user) = false
  ∧ AdvancedUserAdmin.has_change_permission Samples.sample_operation_index
      Samples.grant_all (mkRequest Samples.admin_user)
      (Some Samples.reader_user) = true.
Proof.
  split.
  - apply (proj2 (user_guard_strict Samples.sample_operation_index
                    Samples.grant_all (mkRequest Samples.admin_user)
                    Samples.peer_user)); reflexivity.
  - apply (proj1 (user_guard_strict Samples.sample_operation_index
                    Samples.grant_all (mkRequest Samples.admin_user)
                    Samples.reader_user)).
    split; [right; vm_compute; reflexivity | reflexivity].
Defined.

(** The peer case of the user guard on the sample data: [admin_user] and
    [peer_user] share rank 2, and the edit is refused. *)
Example user_guard_peer_refused :
  AdvancedUserAdmin.has_change_permission Samples.sample_operation_index
    Samples.grant_all (mkRequest Samples.admin_user)
    (Some Samples.peer_user) = false.
Proof. reflexivity. Qed.

(** C2, as the design document words it, fails at equal rank: a
    non-superuser of operation index 2 is let through to a role of index
    2, although 2 is not strictly less than 2. *)
Lemma role_guard_equal_rank_counterexample :
  ¬ (RoleAdmin.has_change_permission Samples.sample_operation_index
       Samples.grant_all (mkRequest Samples.admin_user)
       (Some Samples.role_moderator) = true
     ↔ is_superuser Samples.admin_user = true
       ∨ Samples.sample_operation_index Samples.admin_user
         < index Samples.role_moderator).
Proof.
  intros [Hcode _].
  destruct (Hcode eq_refl) as [Hsu | Hlt].
  - discriminate Hsu.
  - vm_compute in Hlt. discriminate Hlt.
Qed.

(** C2, amended. Where the parent [ModelAdmin] check grants the request, an
    actor may change a role if and only if the actor is a superuser or the
    actor's operation index is less than or equal to the role's index: only
    roles ranked strictly above the actor are out of reach. *)
Theorem role_guard_non_strict
    (operation_index : User → Z) (sup : Request → option Role → bool)
    (request : Request) (role : Role)
    (Hsup : sup request (Some role) = true) :
  RoleAdmin.has_change_permission operation_index sup request (Some role)
    = true
  ↔ is_superuser (user request) = true
    ∨ operation_index (user request) ≤ index role.
Proof.
  rewrite role_has_change_permission_eq, Hsup, andb_true_r.
  rewrite orb_true_iff, Z.leb_le. tauto.
Qed.

Lemma role_guard_non_strict_witness :
  RoleAdmin.has_change_permission Samples.sample_operation_index
    Samples.grant_all (mkRequest Samples.admin_user)
    (Some Samples.role_moderator) = true
  ↔ is_superuser Samples.admin_user = true
    ∨ Samples.sample_operation_index Samples.admin_user
      ≤ index Samples.role_moderator.
Proof.
  apply (role_guard_non_strict Samples.sample_operation_index
           Samples.grant_all (mkRequest Samples.admin_user)
           Samples.role_moderator).
  reflexivity.
Defined.

(** ** Protected roles *)

(** Membership in the literal slug list, spelled out. *)
Lemma elem_of_default_slugs (s : string) :
  s ∈ default_slugs ↔ s = "everyone"%string ∨ s = "registered"%string.
Proof.
  unfold default_slugs.
  rewrite !elem_of_cons, elem_of_nil. tauto.
Qed.

(** C6. For a role whose slug is [everyone] or [registered], deletion is
    refused for every request (superuser or not, whatever the parent class
    would answer), and [slug] is among the read-only fields of every edit. *)
Theorem default_roles_protected
    (sup : Request → option Role → bool) (readonly_fields : list string)
    (request : Request) (role : Role)
    (Hslug : slug role = "everyone"%string ∨ slug role = "registered"%string) :
  RoleAdmin.has_delete_permission sup request (Some role) = false
  ∧ "slug"%string ∈ RoleAdmin.get_readonly_fields readonly_fields request
                      (Some role).
Proof.
  apply elem_of_default_slugs in Hslug.
  unfold RoleAdmin.has_delete_permission, RoleAdmin.get_readonly_fields.
  rewrite (bool_decide_eq_true_2 _ Hslug).
  split; [reflexivity|].
  apply elem_of_app. right. apply list_elem_of_singleton. reflexivity.
Qed.

Lemma default_roles_protected_witness :
  RoleAdmin.has_delete_permission Samples.grant_all
    (mkRequest {| pk := Some 9; username := "root"; email := "";
                  is_active := true; is_superuser := true |})
    (Some Samples.role_everyone) = false
  ∧ "slug"%string ∈ RoleAdmin.get_readonly_fields []
                      (mkRequest {| pk := Some 9; username := "root";
                                    email := ""; is_active := true;
                                    is_superuser := true |})
                      (Some Samples.role_everyone).
Proof.
  apply (default_roles_protected Samples.grant_all []).
  left. reflexivity.
Defined.

(** Any other role is deleted or not as the parent class decides, and its
    read-only fields are the class attribute unchanged. *)
Lemma other_roles_unprotected
    (sup : Request → option Role → bool) (readonly_fields : list string)
    (request : Request) (role : Role) :
  slug role ∉ default_slugs →
  RoleAdmin.has_delete_permission sup request (Some role)
  = sup request (Some role)
  ∧ RoleAdmin.get_readonly_fields readonly_fields request (Some role)
    = readonly_fields.
Proof.
  intros Hslug.
  unfold RoleAdmin.has_delete_permission, RoleAdmin.get_readonly_fields.
  rewrite (bool_decide_eq_false_2 _ Hslug). done.
Qed.

(** ** Assignable roles *)

Lemma elem_of_exclude_default_roles (Role_objects : list Role) (r : Role) :
  r ∈ exclude_default_roles Role_objects
  ↔ r ∈ Role_objects
    ∧ slug r ≠ "everyone"%string ∧ slug r ≠ "registered"%string.
Proof.
  unfold exclude_default_roles.
  rewrite list_elem_of_filter, elem_of_default_slugs. tauto.
Qed.

(** On the sample store the invite form offers the moderator role only. *)
Example invite_form_choices :
  queryset (InviteForm_roles
              [Samples.role_everyone; Samples.role_registered;
               Samples.role_moderator])
  = [Samples.role_moderator].
Proof. vm_compute. reflexivity. Qed.

(** ** The resolution engine *)

Lemma existsb_elem_of {A : Type} (f : A → bool) (l : list A) :
  existsb f l = true ↔ ∃ x, x ∈ l ∧ f x = true.
Proof.
  rewrite existsb_exists.
  split; intros (x & Hx & Hf); exists x; split; try done;
    by apply list_elem_of_In.
Qed.

(** C1. [HasPermission] is deny-overrides-allow over the effective role
    set: a denial in any effective role gives [false]; without one, a grant
    in any effective role gives [true]; without either the answer is
    [false]. *)
Theorem HasPermission_deny_overrides_allow
    (Role_objects : list Role) (p : Principal) (capability : string)
    (scope : option Category) :
  let roles := effective_roles Role_objects p in
  let denied := ∃ r, r ∈ roles ∧ capability ∈ effective_denied scope r in
  let allowed := ∃ r, r ∈ roles ∧ capability ∈ effective_allowed scope r in
  (denied → HasPermission Role_objects p capability scope = false)
  ∧ (¬ denied → allowed →
     HasPermission Role_objects p capability scope = true)
  ∧ (¬ denied → ¬ allowed →
     HasPermission Role_objects p capability scope = false).
Proof.
  intros roles denied allowed. unfold HasPermission. fold roles.
  assert (Hd : existsb
                 (λ r, bool_decide (capability ∈ effective_denied scope r))
                 roles = true ↔ denied).
  { rewrite existsb_elem_of. unfold denied.
    by setoid_rewrite bool_decide_eq_true. }
  assert (Ha : existsb
                 (λ r, bool_decide (capability ∈ effective_allowed scope r))
                 roles = true ↔ allowed).
  { rewrite existsb_elem_of. unfold allowed.
    by setoid_rewrite bool_decide_eq_true. }
  destruct (existsb _ roles) eqn:Ed.
  - assert (Hyes : denied) by (by apply Hd).
    split; [done|]. split; intros Hno; by destruct Hno.
  - assert (Hnd : ¬ denied) by (intros H%Hd; discriminate H).
    split; [intros H; by destruct Hnd|].
    destruct (existsb
                (λ r, bool_decide (capability ∈ effective_allowed scope r))
                roles) eqn:Ea.
    + assert (Hyes : allowed) by (by apply Ha).
      split; [done|]. intros _ Hno. by destruct Hno.
    + split; [|done]. intros _ H%Ha. discriminate H.
Qed.

(** The end-to-end scenario of the design document: role A (rank 1) grants
    [delete_articles], role B (rank 2) denies it, and a user holding both
    is refused. *)
Example HasPermission_two_roles :
  let role_a :=
    {| role_id := 10; slug := "a"; name := "A"; index := 1;
       is_staff := true; permissions := {["delete_articles"%string]};
       restrictions := ∅ |} in
  let role_b :=
    {| role_id := 11; slug := "b"; name := "B"; index := 2;
       is_staff := true; permissions := ∅;
       restrictions := {["delete_articles"%string]} |} in
  HasPermission [Samples.role_everyone; Samples.role_registered]
    {| assigned_roles := [role_a; role_b]; is_authenticated := true |}
    "delete_articles" None = false
  ∧ HasPermission [Samples.role_everyone; Samples.role_registered]
      {| assigned_roles := [role_a]; is_authenticated := true |}
      "delete_articles" None = true
  ∧ HasPermission [Samples.role_everyone; Samples.role_registered]
      {| assigned_roles := []; is_authenticated := true |}
      "delete_articles" None = false.
Proof. vm_compute. done. Qed.

(** ** Role edits *)

(** C10. A role edit whose [_perms_] entry is absent or empty leaves the
    role's allowed and denied sets as they were stored, and still saves the
    submitted model fields. *)
Theorem RoleForm_save_without_perms
    (registry : gset string) (instance : Role)
    (cleaned_data : RoleCleanedData)
    (Hperms : _perms_ cleaned_data = None) :
  let saved := RoleForm_save registry instance cleaned_data in
  permissions saved = permissions instance
  ∧ restrictions saved = restrictions instance
  ∧ slug saved = cd_slug cleaned_data
  ∧ name saved = cd_name cleaned_data
  ∧ is_staff saved = cd_is_staff cleaned_data.
Proof.
  unfold RoleForm_save. rewrite Hperms. simpl. done.
Qed.

Lemma RoleForm_save_without_perms_witness :
  let saved :=
    RoleForm_save Samples.registry Samples.role_moderator
      Samples.role_edit_no_perms in
  permissions saved = permissions Samples.role_moderator
  ∧ restrictions saved = restrictions Samples.role_moderator
  ∧ slug saved = cd_slug Samples.role_edit_no_perms
  ∧ name saved = cd_name Samples.role_edit_no_perms
  ∧ is_staff saved = cd_is_staff Samples.role_edit_no_perms.
Proof.
  apply (RoleForm_save_without_perms Samples.registry Samples.role_moderator
           Samples.role_edit_no_perms).
  reflexivity.
Defined.

Lemma elem_of_Permission_filter
    (registry : gset string) (codenames : list string) (c : string) :
  c ∈ Permission_filter registry codenames ↔ c ∈ codenames ∧ c ∈ registry.
Proof. unfold Permission_filter. by rewrite elem_of_filter. Qed.

Lemma Permission_filter_nil (registry : gset string) :
  Permission_filter registry [] = ∅.
Proof.
  apply set_eq. intros c.
  rewrite elem_of_Permission_filter, elem_of_nil, elem_of_empty. tauto.
Qed.

(** Submitted permission data, even with both lists empty, is not "absent":
    it replaces the stored sets by the registered codenames it lists. *)
Lemma RoleForm_save_with_perms
    (registry : gset string) (instance : Role)
    (cleaned_data : RoleCleanedData) (perms_data : PermsData) :
  _perms_ cleaned_data = Some perms_data →
  let saved := RoleForm_save registry instance cleaned_data in
  permissions saved = Permission_filter registry (allow perms_data)
  ∧ restrictions saved = Permission_filter registry (deny perms_data).
Proof.
  intros Hperms. unfold RoleForm_save. rewrite Hperms. simpl.
  split.
  - destruct (allow perms_data); [by rewrite Permission_filter_nil | done].
  - destruct (deny perms_data); [by rewrite Permission_filter_nil | done].
Qed.

(** C7, as stated, fails: an edit that submits [view_articles] in both
    lists leaves the codename in both sets of the role. *)
Lemma RoleForm_save_overlap_counterexample :
  let saved :=
    RoleForm_save Samples.registry Samples.role_moderator
      Samples.role_edit_overlap in
  ¬ (permissions saved ## restrictions saved).
Proof.
  intros saved Hdisj.
  apply (Hdisj "view_articles"%string); subst saved; simpl;
    apply elem_of_Permission_filter;
    (split; [by apply list_elem_of_singleton
            | unfold Samples.registry; set_solver]).
Qed.

(** C7, amended. A role edit keeps the allowed and denied sets disjoint
    provided the submitted lists share no registered codename or, when no
    permission data is submitted, provided the stored sets were disjoint. *)
Theorem RoleForm_save_disjoint
    (registry : gset string) (instance : Role)
    (cleaned_data : RoleCleanedData)
    (Hinput :
       match _perms_ cleaned_data with
       | Some perms_data =>
           ∀ c, c ∈ registry → c ∈ allow perms_data → c ∉ deny perms_data
       | None => permissions instance ## restrictions instance
       end) :
  let saved := RoleForm_save registry instance cleaned_data in
  permissions saved ## restrictions saved.
Proof.
  intros saved. subst saved.
  destruct (_perms_ cleaned_data) as [perms_data|] eqn:Hperms.
  - destruct (RoleForm_save_with_perms registry instance cleaned_data
                perms_data Hperms) as [-> ->].
    intros c [Ha Hr]%elem_of_Permission_filter
             [Hd _]%elem_of_Permission_filter.
    exact (Hinput c Hr Ha Hd).
  - unfold RoleForm_save. rewrite Hperms. simpl. exact Hinput.
Qed.

Lemma RoleForm_save_disjoint_witness :
  let saved :=
    RoleForm_save Samples.registry Samples.role_moderator
      Samples.role_edit_disjoint in
  permissions saved ## restrictions saved.
Proof.
  apply (RoleForm_save_disjoint Samples.registry Samples.role_moderator
           Samples.role_edit_disjoint).
  simpl. intros c _ Ha Hd.
  apply list_elem_of_singleton in Ha. apply list_elem_of_singleton in Hd.
  congruence.
Defined.

(** ** Category edits *)

Section CategorySave.

Variable registry : gset string.

Lemma filter_all {A : Type} (P : A → Prop) `{!∀ x, Decision (P x)}
    (l : list A) :
  (∀ x, P x) → filter P l = l.
Proof.
  intros HP. induction l as [|x l IH]; [done|].
  rewrite filter_cons_True by apply HP. by rewrite IH.
Qed.

Lemma filter_none {A : Type} (P : A → Prop) `{!∀ x, Decision (P x)}
    (l : list A) :
  (∀ x, x ∈ l → ¬ P x) → filter P l = [].
Proof.
  induction l as [|x l IH]; intros HP; [done|].
  rewrite filter_cons_False by (apply HP; left).
  apply IH. intros y Hy. apply HP. by right.
Qed.

(** Keys without repetition select at most one element. *)
Lemma NoDup_fmap_filter_le1 {A : Type} (f : A → Z) (l : list A) (r : Z) :
  NoDup (f <$> l) → (length (filter (λ x, f x = r) l) ≤ 1)%nat.
Proof.
  induction l as [|x l IH]; intros Hnd; [simpl; lia|].
  rewrite fmap_cons in Hnd. apply NoDup_cons in Hnd as [Hx Hl].
  rewrite filter_cons. case_decide as Hfx.
  - rewrite filter_none; [simpl; lia|].
    intros y Hy Hfy. apply Hx. rewrite Hfx, <- Hfy.
    apply list_elem_of_fmap. by exists y.
  - by apply IH.
Qed.

Lemma ov_role_create_override (entry : Z * PermsData) :
  ov_role (create_override registry entry) = entry.1.
Proof.
  destruct entry as [r pd]. unfold create_override.
  destruct (allow pd), (deny pd); reflexivity.
Qed.

(** The row built for a submitted entry carries exactly the registered
    codenames of the entry's two lists. *)
Lemma create_override_sets (r : Z) (pd : PermsData) :
  create_override registry (r, pd)
  = {| ov_role := r;
       ov_permissions := Permission_filter registry (allow pd);
       ov_restrictions := Permission_filter registry (deny pd) |}.
Proof.
  unfold create_override, RolePermissionsOverride_create.
  destruct (allow pd) eqn:Ea, (deny pd) eqn:Ed; simpl;
    by rewrite ?Permission_filter_nil.
Qed.

Lemma overrides_for_created_None (data : gmap Z PermsData) (r : Z) :
  data !! r = None →
  overrides_for r (create_override registry <$> map_to_list data) = [].
Proof.
  intros Hr. apply filter_none.
  intros o [[k pd] [-> Hin]]%list_elem_of_fmap Hrole.
  rewrite ov_role_create_override in Hrole. simpl in Hrole. subst k.
  apply elem_of_map_to_list in Hin. congruence.
Qed.

Lemma overrides_for_created_list (l : list (Z * PermsData)) (r : Z)
    (pd : PermsData) :
  NoDup l.*1 → (r, pd) ∈ l →
  overrides_for r (create_override registry <$> l)
  = [create_override registry (r, pd)].
Proof.
  unfold overrides_for.
  induction l as [|[k v] l IH]; intros Hnd Hin; [by inversion Hin|].
  rewrite fmap_cons in Hnd. apply NoDup_cons in Hnd as [Hk Hl].
  rewrite fmap_cons, filter_cons, ov_role_create_override. simpl in *.
  apply elem_of_cons in Hin as [Heq | Hin].
  - injection Heq as -> ->. rewrite decide_True by done.
    f_equal. apply filter_none.
    intros o [[k' v'] [-> Hin']]%list_elem_of_fmap Hrole.
    rewrite ov_role_create_override in Hrole. simpl in Hrole. subst k'.
    apply Hk. apply list_elem_of_fmap. by exists (k, v').
  - rewrite decide_False.
    + by apply IH.
    + intros ->. apply Hk. apply list_elem_of_fmap. by exists (r, pd).
Qed.

Lemma overrides_for_created_Some (data : gmap Z PermsData) (r : Z)
    (pd : PermsData) :
  data !! r = Some pd →
  overrides_for r (create_override registry <$> map_to_list data)
  = [create_override registry (r, pd)].
Proof.
  intros Hr. apply overrides_for_created_list.
  - apply NoDup_fst_map_to_list.
  - by apply elem_of_map_to_list.
Qed.

Lemma overrides_for_added_None (roles : list Role) (r : Z) :
  r ∉ role_id <$> roles →
  overrides_for r
    ((λ role, RolePermissionsOverride_create (role_id role)) <$> roles) = [].
Proof.
  intros Hr. apply filter_none.
  intros o [role [-> Hin]]%list_elem_of_fmap Hrole. simpl in Hrole.
  apply Hr. apply list_elem_of_fmap. by exists role.
Qed.

Lemma overrides_for_added_le1 (roles : list Role) (r : Z) :
  NoDup (role_id <$> roles) →
  (length (overrides_for r
             ((λ role, RolePermissionsOverride_create (role_id role))
                <$> roles)) ≤ 1)%nat.
Proof.
  intros Hnd. apply (NoDup_fmap_filter_le1 ov_role).
  by rewrite <- list_fmap_compose.
Qed.

(** The overrides of a category after [CategoryForm.save], in one
    expression: the rebuilt rows (or, without submitted data, the stored
    ones), then the added rows, minus the rows of the roles to remove. *)
Lemma CategoryForm_save_overrides (instance : Category)
    (cleaned_data : CategoryCleanedData) :
  let roles_data := default ∅ (_perms_override_ cleaned_data) in
  permissions_override (CategoryForm_save registry instance cleaned_data)
  = filter
      (λ o, ov_role o ∉ role_id <$> _remove_override_roles_ cleaned_data)
      ((if bool_decide (roles_data ≠ ∅)
        then create_override registry <$> map_to_list roles_data
        else permissions_override instance)
       ++ ((λ role, RolePermissionsOverride_create (role_id role))
             <$> _add_override_roles_ cleaned_data)).
Proof.
  intros roles_data. unfold CategoryForm_save. fold roles_data.
  destruct (_add_override_roles_ cleaned_data) as [|a add];
    destruct (_remove_override_roles_ cleaned_data) as [|d remove];
    destruct (bool_decide (roles_data ≠ ∅)); simpl;
    rewrite ?app_nil_r; try reflexivity;
    (rewrite filter_all; [reflexivity | intros o; apply not_elem_of_nil]).
Qed.

Lemma overrides_for_filter (P : RolePermissionsOverride → Prop)
    `{!∀ o, Decision (P o)} (r : Z) (l : list RolePermissionsOverride) :
  overrides_for r (filter P l) = filter P (overrides_for r l).
Proof.
  unfold overrides_for. induction l as [|o l IH]; [done|].
  rewrite !filter_cons.
  destruct (decide (P o)), (decide (ov_role o = r));
    rewrite ?filter_cons, ?decide_True, ?decide_False by done;
    by rewrite IH.
Qed.

Lemma overrides_for_app (r : Z) (l1 l2 : list RolePermissionsOverride) :
  overrides_for r (l1 ++ l2) = overrides_for r l1 ++ overrides_for r l2.
Proof. apply filter_app. Qed.

End CategorySave.

(** Without an override for the role in the scope category, the engine
    reads the role's global sets. *)
Lemma effective_sets_no_override (c : Category) (r : Role) :
  overrides_for (role_id r) (permissions_override c) = [] →
  effective_allowed (Some c) r = permissions r
  ∧ effective_denied (Some c) r = restrictions r.
Proof.
  intros Hnone. unfold effective_allowed, effective_denied, effective_sets.
  by rewrite Hnone.
Qed.

(** C3, as stated, fails: saving the sample category with an empty
    submission map keeps its override of the moderator role, and the engine
    still reads the override's denied set rather than the role's global
    one. *)
Lemma CategoryForm_save_empty_counterexample :
  let saved :=
    CategoryForm_save Samples.registry Samples.category_drafts
      Samples.category_edit_empty in
  permissions_override saved = [Samples.moderator_override]
  ∧ effective_denied (Some saved) Samples.role_moderator
    ≠ restrictions Samples.role_moderator.
Proof.
  split; [reflexivity|].
  intros Heq.
  assert (Hin : "delete_articles"%string
                ∈ restrictions Samples.role_moderator).
  { rewrite <- Heq. cbn. set_solver. }
  cbn in Hin. set_solver.
Qed.

(** C3, amended. For a role that is neither in the submission map nor in
    the add list: after a save with a non-empty submission map the role has
    no override in the category and the engine falls back to its global
    sets; after a save with an empty submission map the role keeps the
    overrides it had, unless the role is in the remove list. *)
Theorem CategoryForm_save_replaces
    (registry : gset string) (instance : Category)
    (cleaned_data : CategoryCleanedData) (r : Role)
    (Hdata : default ∅ (_perms_override_ cleaned_data) !! role_id r = None)
    (Hadd : role_id r ∉ role_id <$> _add_override_roles_ cleaned_data) :
  let roles_data := default ∅ (_perms_override_ cleaned_data) in
  let saved := CategoryForm_save registry instance cleaned_data in
  (roles_data ≠ ∅ →
   overrides_for (role_id r) (permissions_override saved) = []
   ∧ effective_allowed (Some saved) r = permissions r
   ∧ effective_denied (Some saved) r = restrictions r)
  ∧ (roles_data = ∅ →
     overrides_for (role_id r) (permissions_override saved)
     = filter
         (λ o, ov_role o ∉ role_id <$> _remove_override_roles_ cleaned_data)
         (overrides_for (role_id r) (permissions_override instance))).
Proof.
  intros roles_data saved. subst saved.
  pose proof (CategoryForm_save_overrides registry instance cleaned_data)
    as Hsaved.
  cbv zeta in Hsaved. fold roles_data in Hsaved, Hdata.
  split; intros Hmap.
  - assert (Hnone : overrides_for (role_id r)
                      (permissions_override
                         (CategoryForm_save registry instance cleaned_data))
                    = []).
    { rewrite Hsaved, (bool_decide_eq_true_2 _ Hmap).
      rewrite overrides_for_filter, overrides_for_app.
      rewrite overrides_for_created_None by done.
      rewrite overrides_for_added_None by done. reflexivity. }
    split; [exact Hnone|]. by apply effective_sets_no_override.
  - rewrite Hsaved.
    rewrite bool_decide_eq_false_2 by (intros Hne; by apply Hne).
    rewrite overrides_for_filter, overrides_for_app.
    rewrite overrides_for_added_None by done.
    by rewrite app_nil_r.
Qed.

(** On the sample category that overrides the everyone role: a save with
    data for the moderator role only takes that override away, and a save
    with an empty submission map keeps it. *)
Lemma CategoryForm_save_replaces_witness :
  overrides_for (role_id Samples.role_everyone)
    (permissions_override Samples.category_archive)
  = [Samples.everyone_override]
  ∧ (let saved :=
       CategoryForm_save Samples.registry Samples.category_archive
         Samples.category_edit_replace in
     overrides_for (role_id Samples.role_everyone)
       (permissions_override saved) = []
     ∧ effective_allowed (Some saved) Samples.role_everyone
       = permissions Samples.role_everyone
     ∧ effective_denied (Some saved) Samples.role_everyone
       = restrictions Samples.role_everyone)
  ∧ (let saved :=
       CategoryForm_save Samples.registry Samples.category_archive
         Samples.category_edit_empty in
     overrides_for (role_id Samples.role_everyone)
       (permissions_override saved)
     = [Samples.everyone_override]).
Proof.
  split; [reflexivity|]. split.
  - apply (proj1 (CategoryForm_save_replaces Samples.registry
                    Samples.category_archive Samples.category_edit_replace
                    Samples.role_everyone eq_refl
                    ltac:(simpl; intros Hin;
                          apply list_elem_of_singleton in Hin;
                          discriminate Hin))).
    simpl. intros Hempty.
    apply (f_equal (λ m : gmap Z PermsData, m !! 3)) in Hempty.
    vm_compute in Hempty. discriminate Hempty.
  - etransitivity.
    + apply (proj2 (CategoryForm_save_replaces Samples.registry
                      Samples.category_archive Samples.category_edit_empty
                      Samples.role_everyone eq_refl
                      ltac:(simpl; apply not_elem_of_nil))).
      reflexivity.
    + reflexivity.
Defined.

(** The sample replacement, evaluated: the stored override of the
    moderator role gives way to the submitted one, and the registered role
    gets an empty override. *)
Example CategoryForm_save_replace_run :
  permissions_override
    (CategoryForm_save Samples.registry Samples.category_drafts
       Samples.category_edit_replace)
  = [ {| ov_role := 3;
         ov_permissions :=
           Permission_filter Samples.registry ["view_articles"%string];
         ov_restrictions := ∅ |};
      RolePermissionsOverride_create 2 ].
Proof. reflexivity. Qed.

(** C8, as stated, fails: a save that submits override data for the
    moderator role and also lists that role to add leaves the category with
    two overrides for it. *)
Lemma CategoryForm_save_twice_counterexample :
  ¬ at_most_one_override
      (permissions_override
         (CategoryForm_save Samples.registry Samples.category_plain
            Samples.category_edit_twice)).
Proof.
  intros Hone. specialize (Hone 3). vm_compute in Hone. lia.
Qed.

(** C8, amended. If the category holds at most one override per role
    before the save, and the roles of the add list are distinct, have no
    override in the category yet and are not keys of the submission map,
    then the category holds at most one override per role after the save;
    and a role with submitted data (and not in the remove list) is left with
    exactly the one override built from that data, whatever it had before. *)
Theorem CategoryForm_save_at_most_one
    (registry : gset string) (instance : Category)
    (cleaned_data : CategoryCleanedData)
    (Hprior : at_most_one_override (permissions_override instance))
    (Hdistinct : NoDup (role_id <$> _add_override_roles_ cleaned_data))
    (Hfresh : ∀ role, role ∈ _add_override_roles_ cleaned_data →
        overrides_for (role_id role) (permissions_override instance) = []
        ∧ default ∅ (_perms_override_ cleaned_data) !! role_id role = None) :
  let saved := CategoryForm_save registry instance cleaned_data in
  at_most_one_override (permissions_override saved)
  ∧ ∀ r perms_data,
      default ∅ (_perms_override_ cleaned_data) !! r = Some perms_data →
      r ∉ role_id <$> _remove_override_roles_ cleaned_data →
      overrides_for r (permissions_override saved)
      = [create_override registry (r, perms_data)].
Proof.
  intros saved. subst saved.
  pose proof (CategoryForm_save_overrides registry instance cleaned_data)
    as Hsaved.
  cbv zeta in Hsaved.
  set (roles_data := default ∅ (_perms_override_ cleaned_data)) in *.
  set (added := (λ role, RolePermissionsOverride_create (role_id role))
                  <$> _add_override_roles_ cleaned_data) in *.
  split.
  - intros r. rewrite Hsaved, overrides_for_filter.
    etransitivity; [apply length_filter|].
    rewrite overrides_for_app, length_app.
    destruct (decide (r ∈ role_id <$> _add_override_roles_ cleaned_data))
      as [Hin | Hout].
    + apply list_elem_of_fmap in Hin as (role & -> & Hrole).
      destruct (Hfresh role Hrole) as [Hstored Hsubmitted].
      assert (Hbase : overrides_for (role_id role)
                (if bool_decide (roles_data ≠ ∅)
                 then create_override registry <$> map_to_list roles_data
                 else permissions_override instance) = []).
      { case_bool_decide; [by apply overrides_for_created_None | done]. }
      rewrite Hbase. simpl. by apply overrides_for_added_le1.
    + unfold added. rewrite overrides_for_added_None by done.
      rewrite Nat.add_0_r. case_bool_decide; [|apply Hprior].
      destruct (roles_data !! r) as [pd|] eqn:Hr.
      * by rewrite (overrides_for_created_Some _ _ _ _ Hr).
      * rewrite overrides_for_created_None by done. simpl. lia.
  - intros r perms_data Hr Hkeep.
    assert (Hne : roles_data ≠ ∅).
    { intros Hempty. rewrite Hempty, lookup_empty in Hr. discriminate Hr. }
    assert (Hout : r ∉ role_id <$> _add_override_roles_ cleaned_data).
    { intros (role & -> & Hrole)%list_elem_of_fmap.
      destruct (Hfresh role Hrole) as [_ Hnone]. congruence. }
    rewrite Hsaved, (bool_decide_eq_true_2 _ Hne).
    rewrite overrides_for_filter, overrides_for_app.
    rewrite (overrides_for_created_Some _ _ _ _ Hr).
    unfold added. rewrite overrides_for_added_None by done.
    rewrite app_nil_r, filter_cons_True; [done|].
    by rewrite ov_role_create_override.
Qed.

Lemma CategoryForm_save_at_most_one_witness :
  let saved :=
    CategoryForm_save Samples.registry Samples.category_drafts
      Samples.category_edit_replace in
  at_most_one_override (permissions_override saved)
  ∧ ∀ r perms_data,
      default ∅ (_perms_override_ Samples.category_edit_replace) !! r
      = Some perms_data →
      r ∉ role_id <$> _remove_override_roles_ Samples.category_edit_replace →
      overrides_for r (permissions_override saved)
      = [create_override Samples.registry (r, perms_data)].
Proof.
  apply (CategoryForm_save_at_most_one Samples.registry
           Samples.category_drafts Samples.category_edit_replace).
  - intros r. unfold overrides_for. simpl.
    rewrite filter_cons. case_decide; simpl; lia.
  - simpl. apply NoDup_singleton.
  - simpl. intros role Hrole. apply list_elem_of_singleton in Hrole.
    subst role. split; reflexivity.
Defined.

(** ** User edits *)

Section UserSave.

Variable has_perm : User → string → bool.

Lemma roles_all_roles_set (u : User) (rs : gset Z) (db : UserDB) (i : Z) :
  pk u = Some i → roles_all u (roles_set u rs db) = rs.
Proof.
  intros Hpk. unfold roles_all, roles_set. rewrite Hpk. simpl.
  by rewrite lookup_insert_eq.
Qed.

Lemma roles_all_same_pk (u v : User) (db : UserDB) :
  pk u = pk v → roles_all u db = roles_all v db.
Proof. intros Hpk. unfold roles_all. by rewrite Hpk. Qed.

Lemma roles_all_User_save (u obj : User) (db : UserDB) :
  roles_all u (User_save obj db).2 = roles_all u db.
Proof. unfold User_save, roles_all. by destruct (pk obj). Qed.


End UserSave.

(** The object [save_model] returns has a key: its own, or the one it was
    inserted under. *)
Lemma save_model_pk (has_perm : User → string → bool) (request : Request)
    (obj : User) (change : bool) (db : UserDB) (saved : User)
    (db' : UserDB) :
  AdvancedUserAdmin.save_model has_perm request obj change db
  = Some (saved, db') →
  is_Some (pk saved).
Proof.
  unfold AdvancedUserAdmin.save_model, User_save.
  intros Hsave.
  repeat case_match; simplify_eq; simpl in *; eauto.
Qed.

(** ** The cleaning of a role choice field *)

Lemma clean_Some (field : ModelMultipleChoiceField) (value : list Z)
    (cleaned : list Role) :
  ModelMultipleChoiceField_clean field value = Some cleaned →
  cleaned = filter (λ r, role_id r ∈ value) (queryset field)
  ∧ Forall (λ key, key ∈ role_id <$> cleaned) value.
Proof.
  unfold ModelMultipleChoiceField_clean.
  destruct value as [|v value].
  - destruct (required field); [discriminate|]. intros [= <-].
    split; [|constructor].
    symmetry. apply filter_none. intros r _ Hin. by apply elem_of_nil in Hin.
  - case_bool_decide as Hall; [|discriminate]. intros [= <-]. done.
Qed.


(** The cleaned rows are choices of the field. *)
Lemma clean_choices (field : ModelMultipleChoiceField) (value : list Z)
    (cleaned : list Role) (r : Role) :
  ModelMultipleChoiceField_clean field value = Some cleaned →
  r ∈ cleaned → r ∈ queryset field.
Proof.
  intros [-> _]%clean_Some Hr.
  by apply list_elem_of_filter in Hr as [_ ?].
Qed.

(** The [roles] field of the change form: the restricted queryset, and
    disabled exactly for an actor without [roles.manage_roles]. *)
Lemma change_form_roles_field (has_perm : User → string → bool)
    (Role_objects : list Role) (roles_required : bool) (request : Request) :
  AdvancedUserAdmin.change_form_fields has_perm Role_objects roles_required
    request !! "roles"%string
  = Some {| queryset := exclude_default_roles Role_objects;
            required := roles_required;
            disabled :=
              negb (has_perm (user request) "roles.manage_roles"%string) |}.
Proof.
  unfold AdvancedUserAdmin.change_form_fields, AdvancedUserChangeForm_init.
  rewrite lookup_singleton_eq. simpl. rewrite lookup_insert_eq.
  unfold AdvancedUserAdmin.formfield_for_manytomany.
  rewrite bool_decide_eq_true_2 by done. simpl.
  by destruct (has_perm (user request) "roles.manage_roles"%string).
Qed.




(** The sample edit, evaluated: the rename is stored, the superuser flag
    stays [false]. *)
Example save_model_run :
  fst <$> AdvancedUserAdmin.save_model Samples.no_perm
            (mkRequest Samples.admin_user) Samples.reader_edit true
            Samples.sample_db
  = Some {| pk := Some 3; username := "reader2";
            email := "reader2@example.org"; is_active := false;
            is_superuser := false |}.
Proof. reflexivity. Qed.

(** The same edit by an actor holding every capability: the submitted
    role set replaces the stored one. *)
Example change_user_roles_run :
  match AdvancedUserAdmin.change_user Samples.sample_operation_index
          Samples.all_perms Samples.grant_all
          (Samples.sample_roles
           ++ [{| role_id := 4; slug := "author"; name := "Author";
                  index := 5; is_staff := false; permissions := ∅;
                  restrictions := ∅ |}])
          false (mkRequest Samples.admin_user) Samples.reader_edit [4]
          Samples.sample_db with
  | AdvancedUserAdmin.Saved saved db' =>
      roles_all saved db' = {[ 4 ]}
      ∧ roles_all Samples.reader_user Samples.sample_db = {[ 3 ]}
  | _ => False
  end.
Proof. vm_compute. split; reflexivity. Qed.

(** ** Implicit roles are not assigned *)

(** C9. Whatever roles the store holds, the role choices of the invite form
    and of the user change form (when it has a [roles] field) are exactly
    the stored roles whose slug is neither [everyone] nor [registered], and
    nothing else gets through either form: a submission to the invite form
    cleans, if at all, to such roles only, one for every submitted key; and
    after a saved change of a user every key in the user's stored role set
    is the key of such a role, so that, keys being unique, no role with
    the slug [everyone] or [registered] is in it. *)
Theorem assignable_roles_exclude_implicit (Role_objects : list Role) :
  (∀ r, r ∈ queryset (InviteForm_roles Role_objects)
        ↔ r ∈ Role_objects
          ∧ slug r ≠ "everyone"%string ∧ slug r ≠ "registered"%string)
  ∧ (∀ fields f0,
       fields !! "roles"%string = Some f0 →
       ∃ f, AdvancedUserChangeForm_init Role_objects fields
              !! "roles"%string = Some f
            ∧ ∀ r, r ∈ queryset f
                   ↔ r ∈ Role_objects
                     ∧ slug r ≠ "everyone"%string
                     ∧ slug r ≠ "registered"%string)
  ∧ (∀ value cleaned,
       ModelMultipleChoiceField_clean (InviteForm_roles Role_objects) value
       = Some cleaned →
       (∀ r, r ∈ cleaned →
             r ∈ Role_objects
             ∧ slug r ≠ "everyone"%string ∧ slug r ≠ "registered"%string)
       ∧ ∀ key, key ∈ value → key ∈ role_id <$> cleaned)
  ∧ (∀ operation_index has_perm sup roles_required request obj
       submitted_roles db saved db',
       AdvancedUserAdmin.change_user operation_index has_perm sup
         Role_objects roles_required request obj submitted_roles db
       = AdvancedUserAdmin.Saved saved db' →
       (∀ key, key ∈ roles_all saved db' →
               ∃ r, r ∈ Role_objects ∧ role_id r = key
                    ∧ slug r ≠ "everyone"%string
                    ∧ slug r ≠ "registered"%string)
       ∧ (NoDup (role_id <$> Role_objects) →
          ∀ r, r ∈ Role_objects →
               slug r = "everyone"%string ∨ slug r = "registered"%string →
               role_id r ∉ roles_all saved db')).
Proof.
  split; [|split; [|split]].
  - intros r. simpl. apply elem_of_exclude_default_roles.
  - intros fields f0 Hf0.
    unfold AdvancedUserChangeForm_init. rewrite Hf0.
    eexists. split; [apply lookup_insert_eq|].
    intros r. simpl. apply elem_of_exclude_default_roles.
  - intros value cleaned Hclean. split.
    + intros r Hr. apply elem_of_exclude_default_roles.
      by apply (clean_choices _ _ _ _ Hclean).
    + apply clean_Some in Hclean as [_ Hall].
      by rewrite Forall_forall in Hall.
  - intros operation_index has_perm sup roles_required request obj
      submitted_roles db saved db' Hsaved.
    assert (Hstored : ∀ key, key ∈ roles_all saved db' →
              ∃ r, r ∈ Role_objects ∧ role_id r = key
                   ∧ slug r ≠ "everyone"%string
                   ∧ slug r ≠ "registered"%string).
    { unfold AdvancedUserAdmin.change_user in Hsaved.
      destruct (pk obj ≫= λ i, users db !! i) as [stored|]; [|discriminate].
      destruct (negb _); [discriminate|].
      rewrite change_form_roles_field in Hsaved.
      destruct (ModelMultipleChoiceField_clean _ _) as [cleaned|] eqn:Hclean;
        [|discriminate].
      destruct (AdvancedUserAdmin.save_model has_perm request obj true db)
        as [[obj1 db1]|] eqn:Hsave; [|discriminate].
      injection Hsaved as <- <-.
      destruct (save_model_pk _ _ _ _ _ _ _ Hsave) as [j Hj].
      rewrite (roles_all_roles_set _ _ _ j Hj).
      intros key Hkey. apply elem_of_list_to_set in Hkey.
      apply list_elem_of_fmap in Hkey as [r [-> Hr]].
      apply (clean_choices _ _ _ _ Hclean) in Hr. simpl in Hr.
      apply elem_of_exclude_default_roles in Hr.
      exists r. tauto. }
    split; [exact Hstored|].
    intros Hkeys r Hr Hslug Hin.
    destruct (Hstored _ Hin) as (r' & Hr' & Hid & Hne1 & Hne2).
    assert (r' = r) as ->; [|tauto].
    apply list_elem_of_lookup in Hr as [n Hn].
    apply list_elem_of_lookup in Hr' as [n' Hn'].
    assert (n' = n) as ->.
    { apply (NoDup_lookup _ n' n (role_id r) Hkeys);
        rewrite list_lookup_fmap; [by rewrite Hn', <- Hid | by rewrite Hn]. }
    congruence.
Qed.

(** On the sample store: an actor holding every capability assigns the
    moderator role, and the stored set holds neither implicit role; a
    submission naming the everyone role is turned down by the form. *)
Lemma assignable_roles_exclude_implicit_witness :
  (∃ saved db',
     AdvancedUserAdmin.change_user Samples.sample_operation_index
       Samples.all_perms Samples.grant_all Samples.sample_roles false
       (mkRequest Samples.admin_user) Samples.reader_edit [3]
       Samples.sample_db
     = AdvancedUserAdmin.Saved saved db'
     ∧ (role_id Samples.role_everyone ∉ roles_all saved db')
     ∧ (role_id Samples.role_registered ∉ roles_all saved db'))
  ∧ AdvancedUserAdmin.change_user Samples.sample_operation_index
      Samples.all_perms Samples.grant_all Samples.sample_roles false
      (mkRequest Samples.admin_user) Samples.reader_edit [1; 3]
      Samples.sample_db
    = AdvancedUserAdmin.Invalid
  ∧ ModelMultipleChoiceField_clean (InviteForm_roles Samples.sample_roles)
      [2] = None.
Proof.
  split; [|split; vm_compute; reflexivity].
  destruct (AdvancedUserAdmin.change_user Samples.sample_operation_index
              Samples.all_perms Samples.grant_all Samples.sample_roles false
              (mkRequest Samples.admin_user) Samples.reader_edit [3]
              Samples.sample_db) as [| | | |saved db'] eqn:Hrun;
    try (vm_compute in Hrun; discriminate Hrun).
  exists saved, db'. split; [reflexivity|].
  destruct (assignable_roles_exclude_implicit Samples.sample_roles)
    as (_ & _ & _ & Hstored).
  destruct (Hstored _ _ _ _ _ _ _ _ _ _ Hrun) as [_ Hnone].
  assert (Hkeys : NoDup (role_id <$> Samples.sample_roles)).
  { apply (bool_decide_unpack _). vm_compute. reflexivity. }
  split; apply (Hnone Hkeys).
  - left.
  - by left.
  - right. left.
  - by right.
Defined.

(** The user change form on the sample store: its [roles] field, whatever
    queryset it came with, offers the moderator role only and keeps its
    flags. *)
Example user_change_form_choices :
  AdvancedUserChangeForm_init
    [Samples.role_everyone; Samples.role_registered; Samples.role_moderator]
    {[ "roles"%string :=
         {| queryset := [Samples.role_everyone; Samples.role_registered;
                         Samples.role_moderator];
            required := false; disabled := true |} ]}
  !! "roles"%string
  = Some {| queryset := [Samples.role_moderator];
            required := false; disabled := true |}.
Proof. vm_compute. reflexivity. Qed.

(** * Further properties of the code *)

(** ** Search: page size and occurrences *)

(** X1. Whatever the [limit] parameter holds, the page size handed to the
    search lies between 1 and 25, and a parameter that parses to a number in
    that range is used as it is. *)
Theorem search_limit_bounds (int : string → option Z)
    (GET_limit : option string) :
  1 ≤ Search.search_limit int GET_limit ≤ 25
  ∧ ∀ n, int (default "25"%string GET_limit) = Some n →
         1 ≤ n ≤ 25 → Search.search_limit int GET_limit = n.
Proof.
  unfold Search.search_limit.
  destruct (int (default "25"%string GET_limit)) as [limit|].
  - split.
    + destruct (Z.ltb_spec limit 1).
      * destruct (Z.gtb_spec 1 25); lia.
      * destruct (Z.gtb_spec limit 25); lia.
    + intros n [= ->] Hn.
      destruct (Z.ltb_spec n 1); [lia|].
      destruct (Z.gtb_spec n 25); lia.
  - split; [lia | discriminate].
Qed.

Lemma occurs_at_length (p s : string) (i : nat) :
  Search.occurs_at p s i = true → (i ≤ String.length s)%nat.
Proof.
  revert i. induction s as [|c s IH]; intros [|i] H; simpl in *;
    try lia; try discriminate.
  apply IH in H. lia.
Qed.

Lemma index_Some (p s : string) (n m : nat) :
  String.index n p s = Some m →
  (n ≤ m)%nat ∧ Search.occurs_at p s m = true
  ∧ ∀ k, (n ≤ k)%nat → (k < m)%nat → Search.occurs_at p s k = false.
Proof.
  revert n m. induction s as [|c s IH]; intros n m H.
  - destruct n; simpl in H; [|discriminate].
    destruct p; [|discriminate]. injection H as <-.
    repeat split; [done|]. intros k ? ?. lia.
  - destruct n as [|n]; cbn [String.index] in H.
    + destruct (String.prefix p (String c s)) eqn:Hpre.
      * injection H as <-. repeat split; [lia | done |].
        intros k ? ?. lia.
      * destruct (String.index 0 p s) as [m'|] eqn:Hidx; [|discriminate].
        injection H as <-.
        destruct (IH 0%nat m' Hidx) as (_ & Hocc & Hmin).
        repeat split; [lia | done |].
        intros [|k] ? ?; [done|]. simpl. apply Hmin; lia.
    + destruct (String.index n p s) as [m'|] eqn:Hidx; [|discriminate].
      injection H as <-.
      destruct (IH n m' Hidx) as (Hle & Hocc & Hmin).
      repeat split; [lia | done |].
      intros [|k] ? ?; [lia|]. simpl. apply Hmin; lia.
Qed.

Lemma index_None (p s : string) (n : nat) :
  String.index n p s = None →
  ∀ k, (n ≤ k)%nat → Search.occurs_at p s k = false.
Proof.
  revert n. induction s as [|c s IH]; intros n H k Hk.
  - destruct n; simpl in H.
    + destruct p; [discriminate|]. by destruct k.
    + destruct k; [lia | done].
  - destruct n as [|n]; cbn [String.index] in H.
    + destruct (String.prefix p (String c s)) eqn:Hpre; [discriminate|].
      destruct (String.index 0 p s) eqn:Hidx; [discriminate|].
      destruct k as [|k]; [done|]. simpl. apply (IH 0%nat); [done | lia].
    + destruct (String.index n p s) eqn:Hidx; [discriminate|].
      destruct k as [|k]; [lia|]. simpl. apply (IH n); [done | lia].
Qed.

Lemma filter_seq_none (p s : string) (n len : nat) :
  (∀ k, (n ≤ k)%nat → (k < n + len)%nat → Search.occurs_at p s k = false) →
  filter (λ i, Search.occurs_at p s i = true) (seq n len) = [].
Proof.
  intros Hnone. apply filter_none.
  intros k [Hk1 Hk2]%elem_of_seq Hocc.
  rewrite Hnone in Hocc by lia. discriminate.
Qed.

(** The loop, started at the first occurrence from offset [n] on, appends
    the remaining occurrences in order. *)
Lemma findall_loop_spec (p s : string) (fuel n : nat) (acc : list Z) :
  (S (String.length s) - n < fuel)%nat →
  Search.findall_loop fuel p s (Search.find p s (Z.of_nat n)) acc
  = acc ++ (Z.of_nat <$> filter (λ i, Search.occurs_at p s i = true)
                           (seq n (S (String.length s) - n))).
Proof.
  revert n acc. induction fuel as [|fuel IH]; intros n acc Hfuel; [lia|].
  cbn [Search.findall_loop].
  destruct (String.index n p s) as [m|] eqn:Hidx.
  - assert (Hfind : Search.find p s (Z.of_nat n) = Z.of_nat m).
    { unfold Search.find. by rewrite Nat2Z.id, Hidx. }
    rewrite Hfind.
    destruct (index_Some p s n m Hidx) as (Hle & Hocc & Hmin).
    pose proof (occurs_at_length p s m Hocc) as Hlen.
    destruct (Z.eqb_spec (Z.of_nat m) (-1)) as [?|_]; [lia|].
    replace (Z.of_nat m + 1) with (Z.of_nat (S m)) by lia.
    rewrite IH by lia.
    replace (S (String.length s) - n)%nat
      with ((m - n) + S (S (String.length s) - S m))%nat by lia.
    rewrite seq_app, filter_app.
    rewrite (filter_seq_none p s n (m - n))
      by (intros k ? ?; apply Hmin; lia).
    replace (n + (m - n))%nat with m by lia.
    cbn [seq]. rewrite filter_cons_True by done.
    rewrite app_nil_l, fmap_cons. by rewrite <- app_assoc.
  - assert (Hfind : Search.find p s (Z.of_nat n) = -1).
    { unfold Search.find. by rewrite Nat2Z.id, Hidx. }
    rewrite Hfind. simpl. rewrite filter_seq_none; [by rewrite app_nil_r|].
    intros k ? _. by apply (index_None p s n).
Qed.

Lemma findall_unfold (p s : string) :
  Search.findall p s
  = Search.findall_loop (S (S (String.length s))) p s
      (Search.find p s (Z.of_nat 0)) [].
Proof. reflexivity. Qed.

(** X2. [findall] returns exactly the offsets at which the pattern occurs in
    the text, overlapping occurrences included, in increasing order. *)
Theorem findall_occurrences (p s : string) :
  Search.findall p s
  = Z.of_nat <$> filter (λ i, Search.occurs_at p s i = true)
                   (seq 0 (S (String.length s))).
Proof.
  rewrite findall_unfold, findall_loop_spec by lia.
  by rewrite Nat.sub_0_r.
Qed.

Lemma filter_all_elem {A : Type} (P : A → Prop) `{!∀ x, Decision (P x)}
    (l : list A) :
  (∀ x, x ∈ l → P x) → filter P l = l.
Proof.
  induction l as [|x l IH]; intros HP; [done|].
  rewrite filter_cons_True by (apply HP; left).
  rewrite IH; [done|]. intros y Hy. apply HP. by right.
Qed.

Lemma occurs_at_empty (s : string) (i : nat) :
  (i ≤ String.length s)%nat → Search.occurs_at EmptyString s i = true.
Proof.
  revert i. induction s as [|c s IH]; intros [|i] Hi; simpl in *;
    try done; try lia.
  apply IH. lia.
Qed.

(** For the empty pattern [findall] returns every offset of the text, its
    end included: [len(s) + 1] positions. *)
Theorem findall_empty_pattern (s : string) :
  Search.findall EmptyString s = Z.of_nat <$> seq 0 (S (String.length s)).
Proof.
  rewrite findall_unfold, findall_loop_spec by lia.
  rewrite Nat.sub_0_r, app_nil_l. f_equal.
  apply filter_all_elem.
  intros i [_ Hi]%elem_of_seq. apply occurs_at_empty. lia.
Qed.

Example findall_overlapping :
  Search.findall "aa" "aaaa" = [0; 1; 2]
  ∧ Search.findall "ab" "xxabxab" = [2; 5]
  ∧ Search.findall "x" "" = [].
Proof. vm_compute. done. Qed.

(** ** Search: excerpt ranges *)

Lemma elem_of_findall (p s : string) (z : Z) :
  z ∈ Search.findall p s
  ↔ ∃ i, z = Z.of_nat i ∧ Search.occurs_at p s i = true.
Proof.
  rewrite findall_unfold, findall_loop_spec by lia.
  rewrite Nat.sub_0_r, app_nil_l, list_elem_of_fmap.
  split.
  - intros (i & -> & [Hocc _]%list_elem_of_filter). by exists i.
  - intros (i & -> & Hocc). exists i. split; [done|].
    apply list_elem_of_filter. split; [done|].
    apply elem_of_seq. pose proof (occurs_at_length p s i Hocc). lia.
Qed.

(** An occurrence of [p] at offset [i] ends within the text. *)
Lemma occurs_at_fits (p s : string) (i : nat) :
  Search.occurs_at p s i = true →
  (i + String.length p ≤ String.length s)%nat.
Proof.
  revert i. induction s as [|c s IH]; intros [|i] H; simpl in H.
  - destruct p; [simpl; lia | discriminate].
  - discriminate.
  - clear IH. revert c s H. induction p as [|a p IHp]; intros c s H.
    + simpl. lia.
    + simpl in H. destruct (Ascii.ascii_dec a c); [|discriminate].
      destruct s as [|c' s].
      * destruct p; [simpl; lia | discriminate].
      * apply IHp in H. simpl in *. lia.
  - apply IH in H. simpl. lia.
Qed.

Lemma elem_of_collect_ranges (original_to_search : string)
    (words_to_search : list string) (r : Search.Range) :
  r ∈ Search.collect_ranges original_to_search words_to_search →
  ∃ word position,
    word ∈ words_to_search
    ∧ Search.occurs_at word original_to_search position = true
    ∧ r = Search.excerpt_range 30
            (Z.of_nat (String.length original_to_search))
            (Z.of_nat (String.length word)) (Z.of_nat position).
Proof.
  unfold Search.collect_ranges.
  intros (word & Hr & Hword)%list_elem_of_bind.
  destruct (_ && _); [by apply elem_of_nil in Hr|].
  apply list_elem_of_fmap in Hr as (z & -> & Hz).
  apply elem_of_findall in Hz as (position & -> & Hocc).
  by exists word, position.
Qed.

Lemma excerpt_range_in_text (text word : string) (position : nat) :
  Search.occurs_at word text position = true →
  Search.in_text (Z.of_nat (String.length text))
    (Search.excerpt_range 30 (Z.of_nat (String.length text))
       (Z.of_nat (String.length word)) (Z.of_nat position)).
Proof.
  intros Hocc. pose proof (occurs_at_fits _ _ _ Hocc) as Hfits.
  unfold Search.in_text, Search.excerpt_range, Search.range_start,
    Search.range_end. simpl. lia.
Qed.

(** X3. Every range collected in step 4 lies within the text and contains the
    occurrence of a search word it was built around. *)
Theorem collect_ranges_cover (original_to_search : string)
    (words_to_search : list string) (r : Search.Range) :
  r ∈ Search.collect_ranges original_to_search words_to_search →
  0 ≤ Search.range_start r
  ∧ Search.range_start r ≤ Search.range_end r
  ∧ Search.range_end r ≤ Z.of_nat (String.length original_to_search)
  ∧ ∃ word position,
      word ∈ words_to_search
      ∧ Search.occurs_at word original_to_search position = true
      ∧ Search.range_word r = Z.of_nat (String.length word)
      ∧ Search.range_start r ≤ Z.of_nat position
      ∧ Z.of_nat position + Z.of_nat (String.length word)
        ≤ Search.range_end r.
Proof.
  intros (word & position & Hword & Hocc & ->)%elem_of_collect_ranges.
  pose proof (occurs_at_fits _ _ _ Hocc) as Hfits.
  unfold Search.excerpt_range, Search.range_start, Search.range_end,
    Search.range_word. simpl.
  split; [lia|]. split; [lia|]. split; [lia|].
  exists word, position. repeat split; try done; lia.
Qed.

Lemma collect_ranges_cover_witness :
  let r := (2, 0, 34) in
  0 ≤ Search.range_start r
  ∧ Search.range_start r ≤ Search.range_end r
  ∧ Search.range_end r
    ≤ Z.of_nat (String.length "xxabxab and some more text to search in")
  ∧ ∃ word position,
      word ∈ ["ab"%string]
      ∧ Search.occurs_at word "xxabxab and some more text to search in"
          position = true
      ∧ Search.range_word r = Z.of_nat (String.length word)
      ∧ Search.range_start r ≤ Z.of_nat position
      ∧ Z.of_nat position + Z.of_nat (String.length word)
        ≤ Search.range_end r.
Proof.
  apply (collect_ranges_cover "xxabxab and some more text to search in"
           ["ab"%string] (2, 0, 34)).
  vm_compute. left.
Defined.

(** ** Search: merging ranges *)

Lemma insert_middle {A : Type} (pre : list A) (a x : A) (rest : list A) :
  <[length pre := x]> (pre ++ a :: rest) = pre ++ x :: rest.
Proof. rewrite insert_app_r_alt by lia. by rewrite Nat.sub_diag. Qed.

Lemma delete_after {A : Type} (pre : list A) (a b : A) (rest : list A) :
  delete (S (length pre)) (pre ++ a :: b :: rest) = pre ++ a :: rest.
Proof.
  replace (S (length pre)) with (length (pre ++ [a]))
    by (rewrite length_app; simpl; lia).
  replace (pre ++ a :: b :: rest) with ((pre ++ [a]) ++ b :: rest)
    by (by rewrite <- app_assoc).
  rewrite delete_middle. by rewrite <- app_assoc.
Qed.

Lemma lookup_after {A : Type} (pre : list A) (a b : A) (rest : list A) :
  (pre ++ a :: b :: rest) !! S (length pre) = Some b.
Proof.
  replace (pre ++ a :: b :: rest) with ((pre ++ [a]) ++ b :: rest)
    by (by rewrite <- app_assoc).
  apply list_lookup_middle. rewrite length_app. simpl. lia.
Qed.

(** With [pre] behind the index and [a] under it, the loop leaves [pre]
    alone and merges [a] into what follows; as many iterations as there are
    ranges after the index suffice. *)
Lemma merge_loop_from (fuel : nat) (pre : list Search.Range)
    (a : Search.Range) (rest : list Search.Range) :
  (length rest ≤ fuel)%nat →
  Search.merge_loop fuel (length pre) (pre ++ a :: rest)
  = pre ++ Search.merge_from a rest.
Proof.
  revert pre a rest. induction fuel as [|fuel IH]; intros pre a rest Hfuel.
  - destruct rest; [done | simpl in Hfuel; lia].
  - cbn [Search.merge_loop]. rewrite length_app.
    destruct rest as [|b rest].
    + simpl length.
      destruct (Z.of_nat (length pre) <? _) eqn:Hlt; [|done].
      apply Z.ltb_lt in Hlt. lia.
    + simpl length in *.
      destruct (Z.of_nat (length pre) <? _) eqn:Hlt;
        [|apply Z.ltb_ge in Hlt; lia].
      rewrite list_lookup_middle by done. rewrite lookup_after.
      cbn [Search.merge_from].
      destruct (Search.range_start b <? Search.range_end a).
      * rewrite insert_middle, delete_after. apply IH. lia.
      * replace (pre ++ a :: b :: rest) with ((pre ++ [a]) ++ b :: rest)
          by (by rewrite <- app_assoc).
        replace (S (length pre)) with (length (pre ++ [a]))
          by (rewrite length_app; simpl; lia).
        rewrite IH by lia. by rewrite <- app_assoc.
Qed.

Lemma merge_ranges_cons (a : Search.Range) (rest : list Search.Range) :
  Search.merge_ranges (a :: rest) = Search.merge_from a rest.
Proof.
  unfold Search.merge_ranges.
  apply (merge_loop_from (length (a :: rest)) [] a rest). simpl. lia.
Qed.

(** More iterations than [len(ranges)] change nothing: the loop has
    reached its exit by then. *)
Lemma merge_loop_enough (fuel : nat) (ranges : list Search.Range) :
  (length ranges ≤ fuel)%nat →
  Search.merge_loop fuel 0 ranges = Search.merge_ranges ranges.
Proof.
  intros Hfuel. destruct ranges as [|a rest].
  - by destruct fuel.
  - rewrite merge_ranges_cons.
    apply (merge_loop_from fuel [] a rest). simpl in Hfuel. lia.
Qed.

Lemma merge_from_head (a : Search.Range) (rest : list Search.Range) :
  ∃ w e tl, Search.merge_from a rest = (w, Search.range_start a, e) :: tl.
Proof.
  revert a. induction rest as [|b rest IH]; intros a.
  - destruct a as [[w s] e]. by exists w, e, [].
  - simpl. destruct (_ <? _).
    + destruct (IH (Z.max (Search.range_word a) (Search.range_word b),
                    Search.range_start a, Search.range_end b))
        as (w & e & tl & ->).
      by exists w, e, tl.
    + destruct a as [[w s] e]. by eexists w, e, _.
Qed.

Lemma merge_from_separated (a : Search.Range) (rest : list Search.Range) :
  Search.separated (Search.merge_from a rest).
Proof.
  revert a. induction rest as [|b rest IH]; intros a; [done|].
  simpl. destruct (Z.ltb_spec (Search.range_start b) (Search.range_end a)).
  - apply IH.
  - specialize (IH b).
    destruct (merge_from_head b rest) as (w & e & tl & Heq).
    rewrite Heq in *. unfold Search.separated in *. simpl in *.
    split; [|done]. unfold Search.range_start at 1. simpl. lia.
Qed.

(** X4. After the merge loop no range reaches into its successor: each range
    ends at or before the offset at which the next one starts. This holds
    for any list of ranges, sorted or not. *)
Theorem merge_ranges_separated (ranges : list Search.Range) :
  Search.separated (Search.merge_ranges ranges).
Proof.
  destruct ranges as [|a rest]; [done|].
  rewrite merge_ranges_cons. apply merge_from_separated.
Qed.

Lemma merge_from_fixed (a : Search.Range) (rest : list Search.Range) :
  Search.chain (λ a b, Search.range_end a ≤ Search.range_start b) a rest →
  Search.merge_from a rest = a :: rest.
Proof.
  revert a. induction rest as [|b rest IH]; intros a Hsep; [done|].
  destruct Hsep as [Hab Hrest]. simpl.
  destruct (Z.ltb_spec (Search.range_start b) (Search.range_end a)); [lia|].
  by rewrite IH.
Qed.

(** X5. The merge loop changes nothing in a list whose ranges already keep
    clear of their successors. *)
Theorem merge_ranges_fixed (ranges : list Search.Range)
    (Hsep : Search.separated ranges) :
  Search.merge_ranges ranges = ranges.
Proof.
  destruct ranges as [|a rest]; [done|].
  rewrite merge_ranges_cons. by apply merge_from_fixed.
Qed.

Lemma merge_ranges_fixed_witness :
  Search.merge_ranges [(3, 0, 10); (5, 10, 20); (3, 40, 50)]
  = [(3, 0, 10); (5, 10, 20); (3, 40, 50)].
Proof.
  apply (merge_ranges_fixed [(3, 0, 10); (5, 10, 20); (3, 40, 50)]).
  unfold Search.separated, Search.range_start, Search.range_end. simpl. lia.
Defined.

(** Merging twice gives what merging once gives. *)
Theorem merge_ranges_idempotent (ranges : list Search.Range) :
  Search.merge_ranges (Search.merge_ranges ranges)
  = Search.merge_ranges ranges.
Proof.
  destruct ranges as [|a rest]; [done|].
  rewrite merge_ranges_cons.
  pose proof (merge_from_separated a rest) as Hsep.
  destruct (Search.merge_from a rest) as [|a' rest'] eqn:Heq; [done|].
  rewrite merge_ranges_cons. by apply merge_from_fixed.
Qed.

Lemma merge_from_starts (a : Search.Range) (rest : list Search.Range) :
  Search.range_start <$> Search.merge_from a rest
  `sublist_of` Search.range_start <$> (a :: rest).
Proof.
  revert a. induction rest as [|b rest IH]; intros a; [done|].
  simpl. destruct (_ <? _).
  - etransitivity; [apply IH|]. simpl.
    apply sublist_skip, sublist_cons. done.
  - rewrite fmap_cons. apply sublist_skip. apply IH.
Qed.

(** X6. The merge loop invents no range: the start offsets it leaves are start
    offsets of the input, in the input's order. In particular the list
    never grows. *)
Theorem merge_ranges_starts (ranges : list Search.Range) :
  Search.range_start <$> Search.merge_ranges ranges
  `sublist_of` Search.range_start <$> ranges.
Proof.
  destruct ranges as [|a rest]; [done|].
  rewrite merge_ranges_cons. apply merge_from_starts.
Qed.

Example merge_ranges_run :
  Search.merge_ranges [(3, 0, 40); (5, 10, 50); (2, 60, 90)]
  = [(5, 0, 50); (2, 60, 90)].
Proof. reflexivity. Qed.

(** ** Search: sorting, selecting and cutting the excerpts *)

Lemma insert_sorted_perm {A : Type} (leb : A → A → bool) (x : A)
    (l : list A) :
  Search.insert_sorted leb x l ≡ₚ x :: l.
Proof.
  induction l as [|y l IH]; [done|].
  simpl. destruct (leb x y); [done|].
  rewrite IH. apply Permutation_swap.
Qed.

(** The sort rearranges the list and nothing else. *)
Lemma stable_sort_perm {A : Type} (leb : A → A → bool) (l : list A) :
  Search.stable_sort leb l ≡ₚ l.
Proof.
  induction l as [|x l IH]; [done|].
  unfold Search.stable_sort in *. simpl.
  by rewrite insert_sorted_perm, IH.
Qed.

Lemma insert_sorted_chain {A : Type} (leb : A → A → bool) (x y : A)
    (l : list A) :
  (∀ a b, leb a b = false → leb b a = true) →
  leb y x = true →
  Search.chain (λ a b, leb a b = true) y l →
  Search.chain (λ a b, leb a b = true) y (Search.insert_sorted leb x l).
Proof.
  intros Htotal. revert y. induction l as [|z l IH]; intros y Hyx Hchain.
  - by split.
  - destruct Hchain as [Hyz Hrest]. simpl.
    destruct (leb x z) eqn:Hxz.
    + by repeat split.
    + split; [done|]. apply IH; [by apply Htotal | done].
Qed.

(** For a total comparison the sort leaves every element in front of one
    that is not smaller. *)
Lemma stable_sort_chained {A : Type} (leb : A → A → bool) (l : list A) :
  (∀ a b, leb a b = false → leb b a = true) →
  Search.chained (λ a b, leb a b = true) (Search.stable_sort leb l).
Proof.
  intros Htotal. induction l as [|x l IH]; [done|].
  unfold Search.stable_sort in *. simpl.
  destruct (foldr (Search.insert_sorted leb) [] l) as [|z l']; [done|].
  simpl. destruct (leb x z) eqn:Hxz.
  - by split.
  - apply insert_sorted_chain; [done | by apply Htotal | done].
Qed.

(** The sort keeps elements of equal key in their order: for a
    transitive comparison, the elements that compare equal to [a] stand in
    the sorted list as they stood in the input. With the two lemmas above
    this determines the result: it is the stable sort of the input. *)
Lemma insert_sorted_stable {A : Type} (leb : A → A → bool) (a x : A)
    (sorted : list A) :
  (∀ u v w, leb u v = true → leb v w = true → leb u w = true) →
  filter (λ y, leb y a = true ∧ leb a y = true)
    (Search.insert_sorted leb x sorted)
  = filter (λ y, leb y a = true ∧ leb a y = true) (x :: sorted).
Proof.
  intros Htrans. induction sorted as [|y sorted IH]; [done|].
  simpl. destruct (leb x y) eqn:Hxy; [done|].
  rewrite (filter_cons _ y), IH, !filter_cons.
  destruct (decide (leb y a = true ∧ leb a y = true)) as [[Hya Hay]|];
    destruct (decide (leb x a = true ∧ leb a x = true)) as [[Hxa Hax]|];
    try done.
  rewrite (Htrans x a y Hxa Hay) in Hxy. discriminate.
Qed.

Lemma stable_sort_stable {A : Type} (leb : A → A → bool) (a : A)
    (l : list A) :
  (∀ u v w, leb u v = true → leb v w = true → leb u w = true) →
  filter (λ y, leb y a = true ∧ leb a y = true) (Search.stable_sort leb l)
  = filter (λ y, leb y a = true ∧ leb a y = true) l.
Proof.
  intros Htrans. unfold Search.stable_sort.
  induction l as [|x l IH]; [done|].
  simpl foldr. rewrite insert_sorted_stable by done.
  by rewrite !filter_cons, IH.
Qed.

Lemma by_start_trans (u v w : Search.Range) :
  Search.by_start u v = true → Search.by_start v w = true →
  Search.by_start u w = true.
Proof. unfold Search.by_start. rewrite !Z.leb_le. lia. Qed.

Lemma by_word_then_start_total (a b : Search.Range) :
  Search.by_word_then_start a b = false →
  Search.by_word_then_start b a = true.
Proof.
  unfold Search.by_word_then_start.
  rewrite orb_false_iff, andb_false_iff, orb_true_iff, andb_true_iff.
  rewrite !Z.ltb_ge, !Z.ltb_lt, !Z.eqb_neq, !Z.eqb_eq, Z.leb_gt, Z.leb_le.
  lia.
Qed.

Lemma by_word_then_start_trans (u v w : Search.Range) :
  Search.by_word_then_start u v = true →
  Search.by_word_then_start v w = true →
  Search.by_word_then_start u w = true.
Proof.
  unfold Search.by_word_then_start.
  rewrite !orb_true_iff, !andb_true_iff.
  rewrite !Z.ltb_lt, !Z.eqb_eq, !Z.leb_le. lia.
Qed.

Lemma by_start_total (a b : Search.Range) :
  Search.by_start a b = false → Search.by_start b a = true.
Proof. unfold Search.by_start. rewrite Z.leb_gt, Z.leb_le. lia. Qed.

Lemma merge_from_in_text (n : Z) (a : Search.Range)
    (rest : list Search.Range) :
  Search.in_text n a → Forall (Search.in_text n) rest →
  Search.chain (λ a b, Search.by_start a b = true) a rest →
  Forall (Search.in_text n) (Search.merge_from a rest).
Proof.
  revert a. induction rest as [|b rest IH]; intros a Ha Hrest Hchain.
  - by constructor.
  - apply Forall_cons in Hrest as [Hb Hrest].
    destruct Hchain as [Hab Hchain].
    unfold Search.by_start in Hab. apply Z.leb_le in Hab.
    simpl. destruct (_ <? _).
    + apply IH; [|done|].
      * unfold Search.in_text, Search.range_start, Search.range_end in *.
        simpl. lia.
      * destruct rest as [|c rest]; [done|].
        destruct Hchain as [Hbc Hchain]. split; [|done].
        unfold Search.by_start in *. apply Z.leb_le in Hbc.
        apply Z.leb_le. unfold Search.range_start at 1. simpl. lia.
    + constructor; [done|]. by apply IH.
Qed.

Lemma separated_ends_before (n : Z) (a : Search.Range)
    (rest : list Search.Range) :
  Search.chain (λ a b, Search.range_end a ≤ Search.range_start b) a rest →
  Forall (Search.in_text n) rest →
  Forall (λ c, Search.range_end a ≤ Search.range_start c) rest.
Proof.
  revert a. induction rest as [|b rest IH]; intros a Hsep Hrest;
    [by constructor|].
  destruct Hsep as [Hab Hsep].
  apply Forall_cons in Hrest as [Hb Hrest].
  constructor; [done|].
  eapply Forall_impl; [by apply (IH b)|].
  intros c Hc. simpl in Hc. destruct Hb as (_ & Hb & _). lia.
Qed.

Lemma separated_disjoint (n : Z) (l : list Search.Range) :
  Search.separated l → Forall (Search.in_text n) l →
  ForallOrdPairs Search.disjoint_ranges l.
Proof.
  induction l as [|a rest IH]; intros Hsep Hl; [constructor|].
  apply Forall_cons in Hl as [Ha Hrest].
  constructor.
  - eapply Forall_impl; [by apply (separated_ends_before n)|].
    intros c Hc. by left.
  - apply IH; [|done]. destruct rest; [done|]. by destruct Hsep.
Qed.

Lemma disjoint_ranges_sym (a b : Search.Range) :
  Search.disjoint_ranges a b → Search.disjoint_ranges b a.
Proof. unfold Search.disjoint_ranges. tauto. Qed.

Lemma ForallOrdPairs_perm {A : Type} (R : A → A → Prop) (l k : list A) :
  (∀ a b, R a b → R b a) →
  l ≡ₚ k → ForallOrdPairs R l → ForallOrdPairs R k.
Proof.
  intros Hsym Hperm. induction Hperm as [|x l k Hperm IH|x y l|l k m ? IH1 ? IH2];
    intros Hl.
  - done.
  - inversion_clear Hl as [|? ? Hx Hrest]. constructor; [|by apply IH].
    by rewrite <- Hperm.
  - inversion_clear Hl as [|? ? Hy Hrest].
    inversion_clear Hrest as [|? ? Hx Hrest'].
    apply Forall_cons in Hy as [Hyx Hy].
    constructor; [constructor; [by apply Hsym | done]|].
    by constructor.
  - by apply IH2, IH1.
Qed.

Lemma ForallOrdPairs_take {A : Type} (R : A → A → Prop) (n : nat)
    (l : list A) :
  ForallOrdPairs R l → ForallOrdPairs R (take n l).
Proof.
  revert n. induction l as [|a l IH]; intros [|n] Hl; simpl;
    try constructor.
  - inversion_clear Hl. by apply Forall_take.
  - inversion_clear Hl. by apply IH.
Qed.

(** X7. The ranges selected for the excerpts are windows of the text, and no
    two of them share an offset: no part of the text is shown twice. *)
Theorem excerpt_ranges_disjoint (original_to_search : string)
    (words_to_search : list string) :
  let ranges := Search.excerpt_ranges original_to_search words_to_search in
  Forall
    (Search.in_text (Z.of_nat (String.length original_to_search))) ranges
  ∧ ForallOrdPairs Search.disjoint_ranges ranges
  ∧ (length ranges ≤ 25)%nat.
Proof.
  intros ranges. subst ranges. unfold Search.excerpt_ranges.
  set (n := Z.of_nat (String.length original_to_search)).
  set (collected :=
         Search.collect_ranges original_to_search words_to_search).
  set (sorted := Search.stable_sort Search.by_start collected).
  assert (Hcollected : Forall (Search.in_text n) collected).
  { apply Forall_forall.
    intros r (word & position & _ & Hocc & ->)%elem_of_collect_ranges.
    by apply excerpt_range_in_text. }
  assert (Hsorted : Forall (Search.in_text n) sorted).
  { subst sorted. by rewrite stable_sort_perm. }
  assert (Hchained : Search.chained (λ a b, Search.by_start a b = true)
                       sorted).
  { apply stable_sort_chained, by_start_total. }
  assert (Hmerged : Forall (Search.in_text n) (Search.merge_ranges sorted)).
  { destruct sorted as [|a rest]; [constructor|].
    rewrite merge_ranges_cons.
    apply Forall_cons in Hsorted as [Ha Hrest].
    by apply merge_from_in_text. }
  assert (Hsep : Search.separated (Search.merge_ranges sorted)).
  { destruct sorted as [|a rest]; [done|].
    rewrite merge_ranges_cons. apply merge_from_separated. }
  pose proof (separated_disjoint n _ Hsep Hmerged) as Hdisj.
  split; [|split].
  - apply Forall_take. by rewrite stable_sort_perm.
  - apply ForallOrdPairs_take.
    eapply ForallOrdPairs_perm; [apply disjoint_ranges_sym | | exact Hdisj].
    symmetry. apply stable_sort_perm.
  - rewrite length_take. lia.
Qed.

Lemma combined_length_app (l k : list string) :
  Search.combined_length (l ++ k)
  = Search.combined_length l + Search.combined_length k.
Proof.
  unfold Search.combined_length.
  induction l as [|e l IH]; simpl; [done | rewrite IH; lia].
Qed.

Lemma combined_length_nonneg (l : list string) :
  0 ≤ Search.combined_length l.
Proof.
  unfold Search.combined_length.
  induction l as [|e l IH]; simpl; lia.
Qed.

(** The state of the truncation loop at index [len(pre)]: the excerpts
    before the index fit, and the loop returns the longest prefix that
    fits. *)
Lemma truncate_loop_spec (limit : Z) (pre rest : list string) :
  Search.combined_length pre ≤ limit →
  ∃ k, (length pre ≤ k ≤ length (pre ++ rest))%nat
       ∧ Search.truncate_loop limit (pre ++ rest) (length pre) rest
           (Search.combined_length pre)
         = take k (pre ++ rest)
       ∧ Search.combined_length (take k (pre ++ rest)) ≤ limit
       ∧ ((k < length (pre ++ rest))%nat →
          limit < Search.combined_length (take (S k) (pre ++ rest))).
Proof.
  revert pre. induction rest as [|e rest IH]; intros pre Hpre.
  - exists (length pre). rewrite app_nil_r. simpl.
    rewrite take_ge by done. repeat split; try done; lia.
  - cbn [Search.truncate_loop].
    destruct (Z.gtb_spec
                (Search.combined_length pre + Z.of_nat (String.length e))
                limit) as [Hover | Hfits].
    + exists (length pre).
      rewrite take_app_length.
      split; [rewrite length_app; simpl; lia|].
      split; [done|]. split; [done|]. intros _.
      replace (pre ++ e :: rest) with ((pre ++ [e]) ++ rest)
        by (by rewrite <- app_assoc).
      replace (S (length pre)) with (length (pre ++ [e]))
        by (rewrite length_app; simpl; lia).
      rewrite take_app_length, combined_length_app.
      unfold Search.combined_length at 2. simpl. lia.
    + destruct (IH (pre ++ [e])) as (k & Hk & Hloop & Hsum & Hmax).
      { rewrite combined_length_app.
        unfold Search.combined_length at 2. simpl. lia. }
      rewrite <- app_assoc in Hk, Hloop, Hsum, Hmax. simpl in *.
      rewrite length_app in Hk, Hloop. simpl in Hk, Hloop.
      rewrite combined_length_app in Hloop.
      unfold Search.combined_length at 2 in Hloop. simpl in Hloop.
      rewrite Z.add_0_r in Hloop.
      replace (length pre + 1)%nat with (S (length pre)) in Hloop by lia.
      exists k. split; [lia|]. by repeat split.
Qed.

(** X8. The excerpts returned are the longest leading part of the list whose
    combined length stays within 1024 characters: either all excerpts, or
    the excerpts up to the one that would cross the limit. *)
Theorem truncate_excerpts_longest_prefix (excerpts : list string) :
  ∃ k, (k ≤ length excerpts)%nat
       ∧ Search.truncate_excerpts excerpts = take k excerpts
       ∧ Search.combined_length (take k excerpts) ≤ 1024
       ∧ ((k < length excerpts)%nat →
          1024 < Search.combined_length (take (S k) excerpts)).
Proof.
  destruct (truncate_loop_spec 1024 [] excerpts) as (k & Hk & Hloop & H).
  { unfold Search.combined_length. simpl. lia. }
  exists k. split; [simpl in Hk; lia|]. by split.
Qed.

Example truncate_excerpts_run :
  Search.truncate_excerpts ["ab"; "cde"; "f"]%string
  = ["ab"; "cde"; "f"]%string
  ∧ Search.truncate_loop 4 ["ab"; "cde"; "f"]%string 0
      ["ab"; "cde"; "f"]%string 0
    = ["ab"%string].
Proof. split; reflexivity. Qed.

Lemma cut_excerpts_bounded (original original_to_search : string)
    (words_to_search : list string) :
  let excerpts :=
    Search.cut_excerpts original original_to_search words_to_search in
  (length excerpts ≤ 25)%nat
  ∧ Search.combined_length excerpts ≤ 1024
  ∧ excerpts
    `prefix_of`
    ((λ r, Search.slice original (Search.range_start r)
             (Search.range_end r))
       <$> Search.excerpt_ranges original_to_search words_to_search).
Proof.
  intros excerpts. subst excerpts. unfold Search.cut_excerpts.
  set (ranges := Search.excerpt_ranges original_to_search words_to_search).
  set (cut := (λ r, Search.slice original (Search.range_start r)
                      (Search.range_end r)) <$> ranges).
  assert (Hlen : (length cut ≤ 25)%nat).
  { subst cut ranges. rewrite length_fmap. unfold Search.excerpt_ranges.
    rewrite length_take. lia. }
  destruct (truncate_loop_spec 1024 [] cut) as (k & Hk & Hloop & Hsum & _).
  { unfold Search.combined_length. simpl. lia. }
  simpl in Hk, Hloop, Hsum.
  change (Search.truncate_excerpts cut = take k cut) in Hloop.
  rewrite Hloop. split; [|split].
  - rewrite length_take. lia.
  - done.
  - apply prefix_take.
Qed.

(** X9. Whatever the text and the words, [get_excerpts] returns at most 25
    excerpts, of at most 1024 characters in total. *)
Theorem get_excerpts_bounded (lower : string → string) (content : string)
    (words_to_search : list string) :
  let excerpts := Search.get_excerpts lower content words_to_search in
  (length excerpts ≤ 25)%nat ∧ Search.combined_length excerpts ≤ 1024.
Proof.
  intros excerpts. subst excerpts. unfold Search.get_excerpts.
  destruct (String.index 0 Search.paragraph_break content) as [i|].
  - set (original := String.substring _ _ content).
    destruct (cut_excerpts_bounded original (lower original)
                words_to_search) as (Hlen & Hsum & _).
    by split.
  - split; [simpl; lia | done].
Qed.

(** X10. A text without an empty line has no second paragraph to quote from:
    [get_excerpts] returns nothing, whatever the words. *)
Theorem get_excerpts_single_paragraph (lower : string → string)
    (content : string) (words_to_search : list string)
    (Hsingle : ∀ i, Search.occurs_at Search.paragraph_break content i
                    = false) :
  Search.get_excerpts lower content words_to_search = [].
Proof.
  unfold Search.get_excerpts.
  destruct (String.index 0 Search.paragraph_break content) as [i|] eqn:Hi;
    [|done].
  apply index_Some in Hi as (_ & Hocc & _).
  rewrite Hsingle in Hocc. discriminate.
Qed.

Lemma get_excerpts_single_paragraph_witness :
  Search.get_excerpts (λ s, s) "one paragraph only" ["one"%string] = [].
Proof.
  apply (get_excerpts_single_paragraph (λ s, s) "one paragraph only"
           ["one"%string]).
  intros i. apply (index_None _ _ 0%nat); [reflexivity | lia].
Defined.

(** ** Middleware: hosts, paths and headers *)

Section MediaHost.

Import Middleware.

Variable Site_objects : list Site.
Variable get_response : HttpRequest → HttpResponse.

Lemma sites_for_host_subseteq (raw_host : string) :
  sites_for_host Site_objects raw_host ⊆ Site_objects.
Proof. intros site [_ Hin]%list_elem_of_filter. done. Qed.

Lemma possible_sites_subseteq (request : HttpRequest) :
  possible_sites Site_objects request ⊆ Site_objects.
Proof.
  unfold possible_sites.
  destruct (META request !! "SERVER_PORT"%string) as [port|].
  - destruct (negb _).
    + destruct (sites_for_host Site_objects _) as [|s l] eqn:Heq.
      * apply sites_for_host_subseteq.
      * rewrite <- Heq. apply sites_for_host_subseteq.
    + apply sites_for_host_subseteq.
  - apply sites_for_host_subseteq.
Qed.

(** What a handled request looks like: the site is the first match, no
    redirect applied, and the response is that of the rest of the chain
    with one of the two sets of headers. *)
Lemma media_host_handled (request : HttpRequest) (site : Site)
    (response : HttpResponse) :
  MediaHostMiddleware_call Site_objects get_response request
  = Handled site response →
  head (possible_sites Site_objects request) = Some site
  ∧ (media_domain site ≠ domain site →
     is_media_host request site = is_media_url request)
  ∧ response
    = (if is_media_host request site
          || (bool_decide (domain site = media_domain site)
              && is_media_url request)
       then set_header "Access-Control-Allow-Origin" "*"
              (get_response request)
       else set_header "X-Frame-Options" "DENY"
              (set_header "X-Content-Type-Options" "nosniff"
                 (get_response request))).
Proof.
  unfold MediaHostMiddleware_call. intros Hcall.
  destruct (possible_sites Site_objects request) as [|site' rest].
  { destruct Site_objects; discriminate. }
  case_bool_decide as Hdiff.
  - assert (Hbd : bool_decide (domain site' = media_domain site') = false)
      by (apply bool_decide_eq_false_2; congruence).
    destruct (is_media_host request site') eqn:Hhost,
      (is_media_url request) eqn:Hurl; simpl in Hcall; try discriminate;
      injection Hcall as <- <-; rewrite Hhost, Hbd; by repeat split.
  - injection Hcall as <- <-. repeat split. intros Hne. by destruct Hdiff.
Qed.

End MediaHost.

(** X11. On a site whose media domain differs from its main domain, a request
    that reaches the rest of the chain is either a media URL on the media
    host, answered with [Access-Control-Allow-Origin: *], or another URL on
    another host, answered with the [nosniff] and frame [DENY] headers:
    pages are never served from the media host, nor media from the main
    one. *)
Theorem media_host_separation
    (Site_objects : list Middleware.Site)
    (get_response : Middleware.HttpRequest → Middleware.HttpResponse)
    (request : Middleware.HttpRequest) (site : Middleware.Site)
    (response : Middleware.HttpResponse)
    (Hhandled : Middleware.MediaHostMiddleware_call Site_objects
                  get_response request
                = Middleware.Handled site response)
    (Hdiff : Middleware.media_domain site ≠ Middleware.domain site) :
  Middleware.is_media_host request site = Middleware.is_media_url request
  ∧ if Middleware.is_media_url request
    then Middleware.response_headers response
           !! "Access-Control-Allow-Origin"%string = Some "*"%string
    else Middleware.response_headers response
           !! "X-Frame-Options"%string = Some "DENY"%string
         ∧ Middleware.response_headers response
             !! "X-Content-Type-Options"%string = Some "nosniff"%string.
Proof.
  destruct (media_host_handled _ _ _ _ _ Hhandled) as (_ & Hsame & ->).
  specialize (Hsame Hdiff). split; [done|].
  rewrite Hsame.
  rewrite bool_decide_eq_false_2 by (intros Heq; by apply Hdiff).
  destruct (Middleware.is_media_url request); simpl.
  - apply lookup_insert_eq.
  - split; [apply lookup_insert_eq|].
    rewrite lookup_insert_ne by done. apply lookup_insert_eq.
Qed.

Lemma media_host_separation_witness :
  Middleware.is_media_host MiddlewareSamples.file_request
    MiddlewareSamples.wiki_site
  = Middleware.is_media_url MiddlewareSamples.file_request
  ∧ if Middleware.is_media_url MiddlewareSamples.file_request
    then Middleware.response_headers
           (Middleware.set_header "Access-Control-Allow-Origin" "*"
              (MiddlewareSamples.plain_response
                 MiddlewareSamples.file_request))
           !! "Access-Control-Allow-Origin"%string = Some "*"%string
    else Middleware.response_headers
           (Middleware.set_header "Access-Control-Allow-Origin" "*"
              (MiddlewareSamples.plain_response
                 MiddlewareSamples.file_request))
           !! "X-Frame-Options"%string = Some "DENY"%string
         ∧ Middleware.response_headers
             (Middleware.set_header "Access-Control-Allow-Origin" "*"
                (MiddlewareSamples.plain_response
                   MiddlewareSamples.file_request))
             !! "X-Content-Type-Options"%string = Some "nosniff"%string.
Proof.
  apply (media_host_separation [MiddlewareSamples.wiki_site]
           MiddlewareSamples.plain_response MiddlewareSamples.file_request
           MiddlewareSamples.wiki_site).
  - reflexivity.
  - discriminate.
Defined.

Lemma sites_for_host_nil_iff (Site_objects : list Middleware.Site)
    (raw_host : string) :
  Middleware.sites_for_host Site_objects raw_host = []
  ↔ ∀ site, site ∈ Site_objects →
            Middleware.domain site ≠ raw_host
            ∧ Middleware.media_domain site ≠ raw_host.
Proof.
  unfold Middleware.sites_for_host. split.
  - intros Hnil site Hin.
    assert (Hnot : ¬ (Middleware.domain site = raw_host
                      ∨ Middleware.media_domain site = raw_host)).
    { intros Hmatch.
      assert (Hsite : site ∈ filter
                (λ site, Middleware.domain site = raw_host
                         ∨ Middleware.media_domain site = raw_host)
                Site_objects) by (by apply list_elem_of_filter).
      rewrite Hnil in Hsite. by apply elem_of_nil in Hsite. }
    split; intros Heq; apply Hnot; [by left | by right].
  - intros Hnone. apply filter_none.
    intros site Hin [Hd | Hm]; by destruct (Hnone site Hin).
Qed.

(** X12. The no-site page is the answer exactly when no site is configured
    at all. With sites configured, the request is refused exactly when no
    site has the host of the request as its domain or media domain, neither
    the bare host nor, for a host without a port and a known server port,
    the host with that port. *)
Theorem media_host_no_site
    (Site_objects : list Middleware.Site)
    (get_response : Middleware.HttpRequest → Middleware.HttpResponse)
    (request : Middleware.HttpRequest) :
  let host := Middleware.get_host request in
  let bare := Middleware.before_char Middleware.colon host in
  (Middleware.MediaHostMiddleware_call Site_objects get_response request
   = Middleware.NoSitePage ↔ Site_objects = [])
  ∧ (Middleware.MediaHostMiddleware_call Site_objects get_response request
     = Middleware.PermissionDenied
     ↔ Site_objects ≠ []
       ∧ (∀ site, site ∈ Site_objects →
            Middleware.domain site ≠ bare
            ∧ Middleware.media_domain site ≠ bare)
       ∧ (∀ port site,
            Middleware.META request !! "SERVER_PORT"%string = Some port →
            Middleware.contains_char Middleware.colon host = false →
            site ∈ Site_objects →
            Middleware.domain site ≠ (host ++ ":" ++ port)%string
            ∧ Middleware.media_domain site ≠ (host ++ ":" ++ port)%string)).
Proof.
  intros host bare.
  pose proof (possible_sites_subseteq Site_objects request) as Hsub.
  assert (Hnil : Middleware.possible_sites Site_objects request = []
            ↔ (∀ site, site ∈ Site_objects →
                 Middleware.domain site ≠ bare
                 ∧ Middleware.media_domain site ≠ bare)
              ∧ (∀ port site,
                   Middleware.META request !! "SERVER_PORT"%string
                   = Some port →
                   Middleware.contains_char Middleware.colon host = false →
                   site ∈ Site_objects →
                   Middleware.domain site ≠ (host ++ ":" ++ port)%string
                   ∧ Middleware.media_domain site
                     ≠ (host ++ ":" ++ port)%string)).
  { unfold Middleware.possible_sites. fold host. fold bare.
    destruct (Middleware.META request !! "SERVER_PORT"%string)
      as [port|]; [destruct (Middleware.contains_char _ host) eqn:Hcolon|];
      simpl.
    - rewrite sites_for_host_nil_iff. split; [|by intros [? _]].
      intros Hbare. split; [done|]. intros ? ? _ ?. done.
    - destruct (Middleware.sites_for_host Site_objects
                  (host ++ ":" ++ port)) as [|s l] eqn:Hport.
      + rewrite sites_for_host_nil_iff. split; [|by intros [? _]].
        intros Hbare. split; [done|].
        intros port' site [= <-] _ Hin.
        by apply (sites_for_host_nil_iff Site_objects (host ++ ":" ++ port)).
      + split; [discriminate|]. intros [_ Hnone].
        assert (Hs : s ∈ Middleware.sites_for_host Site_objects
                           (host ++ ":" ++ port))
          by (rewrite Hport; left).
        apply list_elem_of_filter in Hs as [Hmatch Hin].
        destruct (Hnone port s eq_refl eq_refl Hin).
        by destruct Hmatch.
    - rewrite sites_for_host_nil_iff. split; [|by intros [? _]].
      intros Hbare. split; [done|]. intros ? ? ?. done. }
  unfold Middleware.MediaHostMiddleware_call.
  destruct (Middleware.possible_sites Site_objects request)
    as [|site rest] eqn:Hsites.
  - destruct Hnil as [Hnil _]. specialize (Hnil eq_refl).
    destruct Site_objects as [|s l].
    + split; split; try done. by intros [? _].
    + split; split; done.
  - assert (Hne : Site_objects ≠ []).
    { intros ->. specialize (Hsub site). apply elem_of_nil in Hsub; [done|].
      left. }
    destruct Hnil as [_ Hnil].
    destruct (if bool_decide _ then _ else _); split; split; try done;
      intros [_ Hnone]; by specialize (Hnil Hnone).
Qed.

Lemma contains_before_char (c : Ascii.ascii) (s : string) :
  Middleware.contains_char c (Middleware.before_char c s) = false.
Proof.
  induction s as [|a s IH]; [done|].
  simpl. destruct (Ascii.eqb a c) eqn:Hac; [done|].
  simpl. by rewrite Hac.
Qed.

Lemma before_char_without (c : Ascii.ascii) (s : string) :
  Middleware.contains_char c s = false → Middleware.before_char c s = s.
Proof.
  induction s as [|a s IH]; [done|].
  simpl. destruct (Ascii.eqb a c); [discriminate|].
  intros H. by rewrite IH.
Qed.

Lemma before_char_prefix (c : Ascii.ascii) (s : string) :
  String.prefix (Middleware.before_char c s) s = true.
Proof.
  induction s as [|a s IH]; [done|].
  simpl. destruct (Ascii.eqb a c); [done|].
  simpl. by destruct (Ascii.ascii_dec a a).
Qed.

(** [s.split(c)[0]] is the part of [s] before the first [c]: what follows
    it in [s] is nothing, or starts with [c]. *)
Lemma before_char_split (c : Ascii.ascii) (s : string) :
  ∃ rest,
    s = (Middleware.before_char c s ++ rest)%string
    ∧ (rest = EmptyString ∨ ∃ rest', rest = String c rest').
Proof.
  induction s as [|a s IH].
  - exists EmptyString. split; [done | by left].
  - simpl. destruct (Ascii.eqb a c) eqn:Hac.
    + apply Ascii.eqb_eq in Hac as ->.
      exists (String c s). split; [done | right; by exists s].
    + destruct IH as (rest & Hs & Hrest).
      exists rest. split; [|done].
      change (String a s
              = String a (Middleware.before_char c s ++ rest)%string).
      f_equal. exact Hs.
Qed.

(** X13. A redirect keeps the full path and leads to the other domain of a
    stored site whose two domains differ: to the main domain for a page
    asked of the media host, to the media domain for a media path asked of
    another host. The target differs from the host of the request with its
    port cut off, and so from the host itself whenever the host or the
    target has no port. *)
Theorem media_host_redirect
    (Site_objects : list Middleware.Site)
    (get_response : Middleware.HttpRequest → Middleware.HttpResponse)
    (request : Middleware.HttpRequest) (location : string)
    (Hredirect : Middleware.MediaHostMiddleware_call Site_objects
                   get_response request
                 = Middleware.Redirect location) :
  ∃ site target,
    site ∈ Site_objects
    ∧ Middleware.media_domain site ≠ Middleware.domain site
    ∧ (target = Middleware.domain site
       ∧ Middleware.is_media_host request site = true
       ∧ Middleware.is_media_url request = false
       ∨ target = Middleware.media_domain site
         ∧ Middleware.is_media_host request site = false
         ∧ Middleware.is_media_url request = true)
    ∧ target ≠ Middleware.before_char Middleware.colon
                 (Middleware.get_host request)
    ∧ (Middleware.contains_char Middleware.colon
         (Middleware.get_host request) = false
       ∨ Middleware.contains_char Middleware.colon target = false →
       target ≠ Middleware.get_host request)
    ∧ location
      = ("//" ++ target ++ Middleware.get_full_path request)%string.
Proof.
  pose proof (possible_sites_subseteq Site_objects request) as Hsub.
  unfold Middleware.MediaHostMiddleware_call in Hredirect.
  destruct (Middleware.possible_sites Site_objects request)
    as [|site rest].
  { destruct Site_objects; discriminate. }
  assert (Hsite : site ∈ Site_objects) by (apply Hsub; left).
  case_bool_decide as Hdiff; [|discriminate].
  assert (Hport : ∀ target,
            target ≠ Middleware.before_char Middleware.colon
                       (Middleware.get_host request) →
            Middleware.contains_char Middleware.colon
              (Middleware.get_host request) = false
            ∨ Middleware.contains_char Middleware.colon target = false →
            target ≠ Middleware.get_host request).
  { intros target Hbare Hcolon Heq.
    assert (Hnone : Middleware.contains_char Middleware.colon
                      (Middleware.get_host request) = false)
      by (destruct Hcolon; [done | by rewrite <- Heq]).
    apply Hbare. by rewrite before_char_without. }
  destruct (Middleware.is_media_host request site) eqn:Hhost;
    destruct (Middleware.is_media_url request) eqn:Hurl;
    simpl in Hredirect; try discriminate; injection Hredirect as <-;
    pose proof Hhost as Hmedia; unfold Middleware.is_media_host in Hmedia.
  - apply bool_decide_eq_true in Hmedia.
    assert (Hbare : Middleware.domain site
                    ≠ Middleware.before_char Middleware.colon
                        (Middleware.get_host request)) by congruence.
    exists site, (Middleware.domain site).
    split; [done|]. split; [done|].
    split; [left; split; [done|]; split; [exact Hhost | done]|].
    split; [done|]. split; [by apply Hport | done].
  - apply bool_decide_eq_false in Hmedia.
    assert (Hbare : Middleware.media_domain site
                    ≠ Middleware.before_char Middleware.colon
                        (Middleware.get_host request)) by congruence.
    exists site, (Middleware.media_domain site).
    split; [done|]. split; [done|].
    split; [right; split; [done|]; split; [exact Hhost | done]|].
    split; [done|]. split; [by apply Hport | done].
Qed.

Lemma media_host_redirect_witness :
  ∃ site target,
    site ∈ [MiddlewareSamples.wiki_site]
    ∧ Middleware.media_domain site ≠ Middleware.domain site
    ∧ (target = Middleware.domain site
       ∧ Middleware.is_media_host MiddlewareSamples.stray_request site
         = true
       ∧ Middleware.is_media_url MiddlewareSamples.stray_request = false
       ∨ target = Middleware.media_domain site
         ∧ Middleware.is_media_host MiddlewareSamples.stray_request site
           = false
         ∧ Middleware.is_media_url MiddlewareSamples.stray_request = true)
    ∧ target ≠ Middleware.before_char Middleware.colon
                 (Middleware.get_host MiddlewareSamples.stray_request)
    ∧ (Middleware.contains_char Middleware.colon
         (Middleware.get_host MiddlewareSamples.stray_request) = false
       ∨ Middleware.contains_char Middleware.colon target = false →
       target ≠ Middleware.get_host MiddlewareSamples.stray_request)
    ∧ ("//wiki.example/main")%string
      = ("//" ++ target
         ++ Middleware.get_full_path MiddlewareSamples.stray_request)%string.
Proof.
  apply (media_host_redirect [MiddlewareSamples.wiki_site]
           MiddlewareSamples.plain_response MiddlewareSamples.stray_request).
  reflexivity.
Defined.

(** Where the main domain of a site is stored with a port, the port that
    the middleware cuts off the host before comparing, a page asked of that
    very domain is redirected to where it was asked. *)
Example media_host_redirect_to_self :
  let site :=
    {| Middleware.domain := "wiki.example:8000";
       Middleware.media_domain := "wiki.example" |} in
  let request :=
    {| Middleware.get_host := "wiki.example:8000";
       Middleware.path := "/main";
       Middleware.get_full_path := "/main";
       Middleware.META := ∅;
       Middleware.headers := ∅;
       Middleware.COOKIES := ∅ |} in
  Middleware.MediaHostMiddleware_call [site] MiddlewareSamples.plain_response
    request
  = Middleware.Redirect
      ("//" ++ Middleware.get_host request
       ++ Middleware.get_full_path request)%string.
Proof. reflexivity. Qed.

(** ** Middleware: request metadata *)


(** X15. [ForwardedPortMiddleware] fails exactly on a request without
    [HTTP_HOST]. Otherwise the host it leaves is the part of the old one
    before its first colon, the other entries of [META] are untouched, and
    running it again changes nothing. *)
Theorem forwarded_port_strips (meta : gmap string string) :
  (Middleware.ForwardedPortMiddleware_call meta = None
   ↔ meta !! "HTTP_HOST"%string = None)
  ∧ ∀ meta', Middleware.ForwardedPortMiddleware_call meta = Some meta' →
      (∃ original host rest,
         meta !! "HTTP_HOST"%string = Some original
         ∧ meta' !! "HTTP_HOST"%string = Some host
         ∧ original = (host ++ rest)%string
         ∧ Middleware.contains_char Middleware.colon host = false
         ∧ (rest = EmptyString
            ∨ ∃ rest', rest = String Middleware.colon rest'))
      ∧ (∀ key, key ≠ "HTTP_HOST"%string → meta' !! key = meta !! key)
      ∧ Middleware.ForwardedPortMiddleware_call meta' = Some meta'.
Proof.
  unfold Middleware.ForwardedPortMiddleware_call.
  destruct (meta !! "HTTP_HOST"%string) as [original|] eqn:Horiginal.
  - split; [split; discriminate|].
    intros meta' [= <-]. split; [|split].
    + destruct (before_char_split Middleware.colon original)
        as (rest & Hsplit & Hrest).
      exists original, (Middleware.before_char Middleware.colon original),
        rest.
      split; [done|]. split; [apply lookup_insert_eq|].
      split; [done|]. split; [apply contains_before_char | done].
    + intros key Hkey. by rewrite lookup_insert_ne.
    + rewrite lookup_insert_eq.
      rewrite before_char_without by apply contains_before_char.
      by rewrite insert_insert_eq.
  - split; [done | discriminate].
Qed.

(** X16. The client address recorded by [SpyRequestMiddleware]: with a
    non-empty [X-Forwarded-For] header it is the part of that header before
    its first comma, whatever [REMOTE_ADDR] says; otherwise it is
    [REMOTE_ADDR]. *)
Theorem client_ip_source (meta : gmap string string) :
  match meta !! "HTTP_X_FORWARDED_FOR"%string with
  | Some (String a s) =>
      ∃ ip rest,
        Middleware.current_client_ip meta = Some ip
        ∧ String a s = (ip ++ rest)%string
        ∧ Middleware.contains_char Middleware.comma ip = false
        ∧ (rest = EmptyString
           ∨ ∃ rest', rest = String Middleware.comma rest')
  | _ => Middleware.current_client_ip meta = meta !! "REMOTE_ADDR"%string
  end.
Proof.
  unfold Middleware.current_client_ip.
  destruct (meta !! "HTTP_X_FORWARDED_FOR"%string) as [[|a s]|]; try done.
  destruct (before_char_split Middleware.comma (String a s))
    as (rest & Hsplit & Hrest).
  exists (Middleware.before_char Middleware.comma (String a s)), rest.
  split; [done|]. split; [exact Hsplit|].
  split; [apply contains_before_char | exact Hrest].
Qed.

(** Two proxies in the header: the first address is the one recorded. *)
Example client_ip_first_of_two :
  Middleware.current_client_ip
    {[ "HTTP_X_FORWARDED_FOR"%string := "1.2.3.4, 5.6.7.8"%string;
       "REMOTE_ADDR"%string := "10.0.0.1"%string ]}
  = Some "1.2.3.4"%string.
Proof. reflexivity. Qed.

(** ** Middleware: cookies and bot tokens *)

Lemma wikidot_cookies_not_prefixed (cookie : string) :
  cookie ∈ Middleware.wikidot_cookies →
  String.prefix "WIKIDOT_SESSION_ID_" cookie = false.
Proof.
  unfold Middleware.wikidot_cookies.
  rewrite !elem_of_cons, elem_of_nil.
  intros [-> | [-> | [-> | []]]]; reflexivity.
Qed.

Lemma drop_wikidot_cookie_spec (response : Middleware.HttpResponse)
    (cookie : string) :
  Middleware.response_headers (Middleware.drop_wikidot_cookie response cookie)
  = Middleware.response_headers response
  ∧ Middleware.deleted_cookies (Middleware.drop_wikidot_cookie response cookie)
    = Middleware.deleted_cookies response
      ++ filter (λ c, c ∈ Middleware.wikidot_cookies
                      ∨ String.prefix "WIKIDOT_SESSION_ID_" c = true)
           [cookie].
Proof.
  unfold Middleware.drop_wikidot_cookie.
  case_bool_decide as Hin.
  - rewrite (wikidot_cookies_not_prefixed _ Hin).
    rewrite filter_cons_True by (by left). done.
  - destruct (String.prefix "WIKIDOT_SESSION_ID_" cookie) eqn:Hpre.
    + rewrite filter_cons_True by (by right). done.
    + rewrite filter_cons_False; [by rewrite app_nil_r|].
      intros [? | ?]; [done | congruence].
Qed.

Lemma drop_wikidot_fold (response : Middleware.HttpResponse)
    (cookies : list string) :
  Middleware.response_headers
    (foldl Middleware.drop_wikidot_cookie response cookies)
  = Middleware.response_headers response
  ∧ Middleware.deleted_cookies
      (foldl Middleware.drop_wikidot_cookie response cookies)
    = Middleware.deleted_cookies response
      ++ filter (λ c, c ∈ Middleware.wikidot_cookies
                      ∨ String.prefix "WIKIDOT_SESSION_ID_" c = true)
           cookies.
Proof.
  revert response. induction cookies as [|c cookies IH]; intros response.
  - simpl. by rewrite app_nil_r.
  - simpl foldl.
    destruct (IH (Middleware.drop_wikidot_cookie response c)) as [-> ->].
    destruct (drop_wikidot_cookie_spec response c) as [-> ->].
    split; [done|].
    rewrite <- app_assoc, <- filter_app. done.
Qed.

(** X17. [DropWikidotAuthMiddleware] leaves the headers of the response alone
    and deletes, once each, exactly those cookies of the request that are
    named [wikidot_token7], [wikidot_udsession] or [WIKIDOT_SESSION_ID], or
    whose name starts with [WIKIDOT_SESSION_ID_]; no other cookie is ever
    deleted. *)
Theorem drop_wikidot_cookies
    (get_response : Middleware.HttpRequest → Middleware.HttpResponse)
    (request : Middleware.HttpRequest) :
  let response :=
    Middleware.DropWikidotAuthMiddleware_call get_response request in
  Middleware.response_headers response
  = Middleware.response_headers (get_response request)
  ∧ ∃ dropped,
      Middleware.deleted_cookies response
      = Middleware.deleted_cookies (get_response request) ++ dropped
      ∧ NoDup dropped
      ∧ ∀ c, c ∈ dropped
             ↔ is_Some (Middleware.COOKIES request !! c)
               ∧ (c ∈ Middleware.wikidot_cookies
                  ∨ String.prefix "WIKIDOT_SESSION_ID_" c = true).
Proof.
  intros response. subst response.
  unfold Middleware.DropWikidotAuthMiddleware_call.
  destruct (drop_wikidot_fold (get_response request)
              (map_to_list (Middleware.COOKIES request)).*1) as [-> ->].
  split; [done|]. eexists. split; [done|]. split.
  - apply NoDup_filter, NoDup_fst_map_to_list.
  - intros c. rewrite list_elem_of_filter, list_elem_of_fmap.
    split.
    + intros [Hc ([k v] & -> & Hkv)]. split; [|done].
      apply elem_of_map_to_list in Hkv. by exists v.
    + intros [[v Hv] Hc]. split; [done|].
      exists (c, v). split; [done|]. by apply elem_of_map_to_list.
Qed.

Example drop_wikidot_cookies_run :
  Middleware.deleted_cookies
    (Middleware.DropWikidotAuthMiddleware_call
       MiddlewareSamples.plain_response MiddlewareSamples.stray_request)
  ≡ₚ ["wikidot_token7"; "WIKIDOT_SESSION_ID_abc"]%string.
Proof.
  vm_compute.
  first [reflexivity | apply Permutation_swap].
Qed.

Lemma substring_all (s : string) :
  String.substring 0 (String.length s) s = s.
Proof. induction s as [|a s IH]; simpl; [done | by rewrite IH]. Qed.

Lemma prefix_split (p s : string) :
  String.prefix p s = true →
  s = (p ++ String.substring (String.length p)
              (String.length s - String.length p) s)%string.
Proof.
  revert s. induction p as [|a p IH]; intros s Hpre.
  - simpl. rewrite Nat.sub_0_r. by rewrite substring_all.
  - destruct s as [|b s]; [discriminate|]. simpl in Hpre.
    destruct (Ascii.ascii_dec a b) as [->|]; [|discriminate].
    change (String b s
            = String b (p ++ String.substring (String.length p)
                               (String.length s - String.length p) s)).
    f_equal. by apply IH.
Qed.

(** X18. [BotAuthTokenMiddleware] changes the request only on a successful
    token login: whenever the user or the CSRF mark of the request differ
    afterwards, the request carried [Authorization: Bearer <token>], the
    new user is a stored account of type [bot] whose API key is that token,
    and CSRF processing is marked as done. *)
Theorem bot_token_login
    (User_objects : list Middleware.Account)
    (request : Middleware.HttpRequest) (state state' : Middleware.AuthState)
    (Hcall : Middleware.BotAuthTokenMiddleware_call User_objects request state
             = Some state')
    (Hchanged : state' ≠ state) :
  ∃ bot token,
    bot ∈ User_objects
    ∧ Middleware.account_type bot = "bot"%string
    ∧ Middleware.api_key bot = Some token
    ∧ Middleware.headers request !! "Authorization"%string
      = Some ("Bearer " ++ token)%string
    ∧ state' = {| Middleware.request_user := Some bot;
                  Middleware.csrf_processing_done := true |}.
Proof.
  unfold Middleware.BotAuthTokenMiddleware_call in Hcall.
  destruct (Middleware.headers request !! "Authorization"%string)
    as [authorization|] eqn:Hheader; [|congruence].
  destruct (String.prefix "Bearer " authorization) eqn:Hprefix; [|congruence].
  apply prefix_split in Hprefix.
  set (token := String.substring 7 (String.length authorization - 7)
                  authorization) in *.
  unfold Middleware.get_bot in Hcall.
  destruct (filter _ User_objects) as [|bot [|bot' rest]] eqn:Hfilter;
    [congruence | | discriminate].
  injection Hcall as <-.
  assert (Hbot : bot ∈ filter
            (λ u, Middleware.account_type u = "bot"%string
                  ∧ Middleware.api_key u = Some token) User_objects)
    by (rewrite Hfilter; left).
  apply list_elem_of_filter in Hbot as [[Htype Hkey] Hin].
  exists bot, token. repeat split; try done.
  by rewrite Hprefix at 1.
Qed.

Lemma bot_token_login_witness :
  ∃ bot token,
    bot ∈ [MiddlewareSamples.human_account; MiddlewareSamples.bot_account]
    ∧ Middleware.account_type bot = "bot"%string
    ∧ Middleware.api_key bot = Some token
    ∧ Middleware.headers MiddlewareSamples.stray_request
        !! "Authorization"%string
      = Some ("Bearer " ++ token)%string
    ∧ {| Middleware.request_user := Some MiddlewareSamples.bot_account;
         Middleware.csrf_processing_done := true |}
      = {| Middleware.request_user := Some bot;
           Middleware.csrf_processing_done := true |}.
Proof.
  apply (bot_token_login
           [MiddlewareSamples.human_account; MiddlewareSamples.bot_account]
           MiddlewareSamples.stray_request
           {| Middleware.request_user := None;
              Middleware.csrf_processing_done := false |}).
  - reflexivity.
  - discriminate.
Defined.

(** ** The category form: querysets and saving *)

Lemma overrides_for_nil_iff (r : Z) (l : list RolePermissionsOverride) :
  overrides_for r l = [] ↔ ∀ o, o ∈ l → ov_role o ≠ r.
Proof.
  split.
  - intros Hnil o Ho Hr.
    assert (Hin : o ∈ overrides_for r l)
      by (apply list_elem_of_filter; by split).
    rewrite Hnil in Hin. by apply elem_of_nil in Hin.
  - intros Hnone. by apply filter_none.
Qed.

Lemma elem_of_overrided_roles (Role_objects : list Role)
    (instance : Category) (role : Role) :
  role ∈ CategoryFormInit.overrided_roles Role_objects instance
  ↔ role ∈ Role_objects
    ∧ overrides_for (role_id role) (permissions_override instance) ≠ [].
Proof.
  unfold CategoryFormInit.overrided_roles.
  rewrite list_elem_of_bind. split.
  - intros (r & Hin & Hr).
    apply list_elem_of_bind in Hin as (o & Hin & Ho).
    case_decide as Heq; [|by apply elem_of_nil in Hin].
    apply list_elem_of_singleton in Hin as ->.
    split; [done|]. rewrite overrides_for_nil_iff.
    intros Hnone. by apply (Hnone o).
  - intros [Hin Hsome]. exists role. split; [|done].
    apply list_elem_of_bind.
    destruct (overrides_for (role_id role) (permissions_override instance))
      as [|o rest] eqn:Hfor; [done|].
    assert (Ho : o ∈ overrides_for (role_id role)
                       (permissions_override instance))
      by (rewrite Hfor; left).
    apply list_elem_of_filter in Ho as [Hrole Ho].
    exists o. split; [|done]. rewrite decide_True by done. left.
Qed.

Lemma elem_of_add_queryset (Role_objects : list Role)
    (instance : Category) (role : Role) :
  role ∈ queryset
           (CategoryFormInit.CategoryForm_init Role_objects
              (Some instance)).1
  ↔ role ∈ Role_objects
    ∧ overrides_for (role_id role) (permissions_override instance) = [].
Proof.
  simpl. rewrite list_elem_of_filter. split.
  - intros [Hid Hin]. split; [done|].
    destruct (overrides_for (role_id role) (permissions_override instance))
      eqn:Hfor; [done|].
    exfalso. apply Hid, list_elem_of_fmap. exists role. split; [done|].
    apply elem_of_overrided_roles. split; [done|]. by rewrite Hfor.
  - intros [Hin Hnone]. split; [|done].
    intros (r & Hid & [_ Hsome]%elem_of_overrided_roles)%list_elem_of_fmap.
    apply Hsome. by rewrite <- Hid.
Qed.

(** X19. For an existing category the form splits the stored roles in two: the
    roles it offers to add are exactly those without an override in the
    category, the roles it offers to remove exactly those with one. *)
Theorem category_form_querysets (Role_objects : list Role)
    (instance : Category) (role : Role) :
  let fields :=
    CategoryFormInit.CategoryForm_init Role_objects (Some instance) in
  (role ∈ queryset fields.1
   ↔ role ∈ Role_objects
     ∧ overrides_for (role_id role) (permissions_override instance) = [])
  ∧ (role ∈ queryset fields.2
     ↔ role ∈ Role_objects
       ∧ overrides_for (role_id role) (permissions_override instance) ≠ [])
  ∧ (role ∈ Role_objects →
     role ∈ queryset fields.1 ↔ role ∉ queryset fields.2).
Proof.
  intros fields.
  pose proof (elem_of_add_queryset Role_objects instance role) as Hadd.
  pose proof (elem_of_overrided_roles Role_objects instance role) as Hrem.
  split; [exact Hadd|]. split; [exact Hrem|].
  intros Hin. subst fields. simpl in *. rewrite Hadd, Hrem.
  destruct (overrides_for (role_id role) (permissions_override instance));
    split; intros H.
  - by intros [_ ?].
  - by split.
  - by destruct H.
  - exfalso. apply H. by split.
Qed.

(** A new category has nothing to remove: every stored role is offered
    for adding, and the remove field is disabled. *)
Example category_form_new (Role_objects : list Role) :
  let fields := CategoryFormInit.CategoryForm_init Role_objects None in
  queryset fields.1 = Role_objects ∧ disabled fields.2 = true.
Proof. done. Qed.

(** X20. Removal wins: a role listed in [_remove_override_roles_] has no
    override in the category after the save, even when the same submission
    carries override data for it or lists it to add. *)
Theorem CategoryForm_save_remove_wins
    (registry : gset string) (instance : Category)
    (cleaned_data : CategoryCleanedData) (role : Role)
    (Hremove : role ∈ _remove_override_roles_ cleaned_data) :
  overrides_for (role_id role)
    (permissions_override (CategoryForm_save registry instance cleaned_data))
  = [].
Proof.
  rewrite CategoryForm_save_overrides. cbv zeta.
  apply overrides_for_nil_iff.
  intros o [Hkeep _]%list_elem_of_filter Hrole.
  apply Hkeep. rewrite Hrole. apply list_elem_of_fmap. by exists role.
Qed.

Lemma CategoryForm_save_remove_wins_witness :
  overrides_for (role_id Samples.role_moderator)
    (permissions_override
       (CategoryForm_save Samples.registry Samples.category_drafts
          {| cd_cat_name := "drafts"; cd_is_indexed := true;
             _perms_override_ := Some {[ 3 := Samples.moderator_perms ]};
             _add_override_roles_ := [Samples.role_moderator];
             _remove_override_roles_ := [Samples.role_moderator] |}))
  = [].
Proof.
  apply (CategoryForm_save_remove_wins Samples.registry
           Samples.category_drafts).
  simpl. left.
Defined.

Lemma Permission_filter_subseteq (registry : gset string)
    (codenames : list string) :
  Permission_filter registry codenames ⊆ registry.
Proof. intros c [_ Hc]%elem_of_Permission_filter. done. Qed.

(** X21. Codenames that are not registered never reach an override: if the
    overrides of the category held registered codenames only (or are
    rebuilt from submitted data), they do so after the save. *)
Theorem CategoryForm_save_registered_only
    (registry : gset string) (instance : Category)
    (cleaned_data : CategoryCleanedData)
    (Hprior : default ∅ (_perms_override_ cleaned_data) = ∅ →
              CategoryFormInit.registered_only registry
                (permissions_override instance)) :
  CategoryFormInit.registered_only registry
    (permissions_override (CategoryForm_save registry instance cleaned_data)).
Proof.
  rewrite CategoryForm_save_overrides. cbv zeta.
  unfold CategoryFormInit.registered_only in *.
  apply Forall_forall. intros o [_ Ho]%list_elem_of_filter.
  apply elem_of_app in Ho as [Ho | Ho].
  - case_bool_decide as Hdata.
    + apply list_elem_of_fmap in Ho as ([r pd] & -> & _).
      rewrite create_override_sets. simpl.
      split; apply Permission_filter_subseteq.
    + rewrite Forall_forall in Hprior. by apply Hprior.
  - apply list_elem_of_fmap in Ho as (role & -> & _). simpl.
    split; apply empty_subseteq.
Qed.

Lemma CategoryForm_save_registered_only_witness :
  CategoryFormInit.registered_only Samples.registry
    (permissions_override
       (CategoryForm_save Samples.registry Samples.category_drafts
          Samples.category_edit_replace)).
Proof.
  apply (CategoryForm_save_registered_only Samples.registry
           Samples.category_drafts Samples.category_edit_replace).
  intros Hempty. exfalso.
  assert (Hin : (default ∅ (_perms_override_ Samples.category_edit_replace)
                 : gmap Z PermsData) !! 3 = Some Samples.moderator_perms)
    by reflexivity.
  rewrite Hempty in Hin. discriminate Hin.
Defined.

(** X22. A save of what the form accepts keeps the invariant of the override
    store: if the category holds at most one override per role, the roles
    to add are distinct choices of the add field built on that category,
    and override data is submitted only for roles that have an override,
    then the category holds at most one override per role afterwards. *)
Theorem CategoryForm_validated_save
    (registry : gset string) (Role_objects : list Role)
    (instance : Category) (cleaned_data : CategoryCleanedData)
    (Hprior : at_most_one_override (permissions_override instance))
    (Hchoices : ∀ role,
        role ∈ _add_override_roles_ cleaned_data →
        role ∈ queryset
                 (CategoryFormInit.CategoryForm_init Role_objects
                    (Some instance)).1)
    (Hdistinct : NoDup (role_id <$> _add_override_roles_ cleaned_data))
    (Hdata : ∀ r perms_data,
        default ∅ (_perms_override_ cleaned_data) !! r = Some perms_data →
        overrides_for r (permissions_override instance) ≠ []) :
  at_most_one_override
    (permissions_override (CategoryForm_save registry instance cleaned_data)).
Proof.
  intros r. rewrite CategoryForm_save_overrides. cbv zeta.
  set (roles_data := default ∅ (_perms_override_ cleaned_data)) in *.
  rewrite overrides_for_filter.
  etransitivity; [apply length_filter|].
  rewrite overrides_for_app, length_app.
  destruct (decide (r ∈ role_id <$> _add_override_roles_ cleaned_data))
    as [Hin | Hout].
  - apply list_elem_of_fmap in Hin as (role & -> & Hrole).
    apply Hchoices, elem_of_add_queryset in Hrole as [_ Hnone].
    assert (Hsubmitted : roles_data !! role_id role = None).
    { destruct (roles_data !! role_id role) as [pd|] eqn:Hpd; [|done].
      by destruct (Hdata _ _ Hpd). }
    assert (Hbase : overrides_for (role_id role)
              (if bool_decide (roles_data ≠ ∅)
               then create_override registry <$> map_to_list roles_data
               else permissions_override instance) = []).
    { case_bool_decide; [by apply overrides_for_created_None | done]. }
    rewrite Hbase. simpl. by apply overrides_for_added_le1.
  - rewrite overrides_for_added_None by done.
    rewrite Nat.add_0_r. case_bool_decide; [|apply Hprior].
    destruct (roles_data !! r) as [pd|] eqn:Hr.
    + by rewrite (overrides_for_created_Some _ _ _ _ Hr).
    + rewrite overrides_for_created_None by done. simpl. lia.
Qed.

Lemma CategoryForm_validated_save_witness :
  at_most_one_override
    (permissions_override
       (CategoryForm_save Samples.registry Samples.category_drafts
          Samples.category_edit_replace)).
Proof.
  apply (CategoryForm_validated_save Samples.registry
           [Samples.role_everyone; Samples.role_registered;
            Samples.role_moderator]
           Samples.category_drafts Samples.category_edit_replace).
  - intros r. unfold overrides_for. simpl.
    rewrite filter_cons. case_decide; simpl; lia.
  - intros role Hrole. simpl in Hrole.
    apply list_elem_of_singleton in Hrole.
    subst role. apply elem_of_add_queryset. split; [|reflexivity].
    right. left.
  - simpl. apply NoDup_singleton.
  - simpl. intros r pd [<- _]%lookup_singleton_Some. discriminate.
Defined.

(** ** The role form: what an edit stores *)

(** X23. An edit with permission data replaces the role's sets outright: the
    role then allows exactly the registered codenames of the allow list and
    denies exactly the registered codenames of the deny list, whatever it
    held before; codenames that are not registered are dropped. *)
Theorem RoleForm_save_replaces_sets
    (registry : gset string) (instance : Role)
    (cleaned_data : RoleCleanedData) (perms_data : PermsData)
    (Hperms : _perms_ cleaned_data = Some perms_data) (c : string) :
  let saved := RoleForm_save registry instance cleaned_data in
  (c ∈ permissions saved ↔ c ∈ allow perms_data ∧ c ∈ registry)
  ∧ (c ∈ restrictions saved ↔ c ∈ deny perms_data ∧ c ∈ registry).
Proof.
  intros saved. subst saved.
  destruct (RoleForm_save_with_perms registry instance cleaned_data
              perms_data Hperms) as [-> ->].
  split; apply elem_of_Permission_filter.
Qed.

Lemma RoleForm_save_replaces_sets_witness :
  let saved :=
    RoleForm_save Samples.registry Samples.role_moderator
      Samples.role_edit_disjoint in
  ("delete_articles"%string ∈ permissions saved
   ↔ "delete_articles"%string ∈ ["view_articles"%string]
     ∧ "delete_articles"%string ∈ Samples.registry)
  ∧ ("delete_articles"%string ∈ restrictions saved
     ↔ "delete_articles"%string ∈ ["edit_articles"%string]
       ∧ "delete_articles"%string ∈ Samples.registry).
Proof.
  apply (RoleForm_save_replaces_sets Samples.registry Samples.role_moderator
           Samples.role_edit_disjoint
           {| allow := ["view_articles"%string];
              deny := ["edit_articles"%string] |}).
  reflexivity.
Defined.

(** Saving the same role form twice stores what saving it once stores. *)
Theorem RoleForm_save_idempotent
    (registry : gset string) (instance : Role)
    (cleaned_data : RoleCleanedData) :
  RoleForm_save registry (RoleForm_save registry instance cleaned_data)
    cleaned_data
  = RoleForm_save registry instance cleaned_data.
Proof.
  unfold RoleForm_save.
  destruct (_perms_ cleaned_data) as [perms_data|]; reflexivity.
Qed.

(** ** User edits: failure and the add case *)

(** X24. [save_model] fails in one situation only: the object carries a
    primary key other than 0 under which no user row is stored. *)
Theorem save_model_fails_iff
    (has_perm : User → string → bool) (request : Request) (obj : User)
    (change : bool) (db : UserDB) :
  AdvancedUserAdmin.save_model has_perm request obj change db = None
  ↔ ∃ i, pk obj = Some i ∧ i ≠ 0 ∧ users db !! i = None.
Proof.
  unfold AdvancedUserAdmin.save_model.
  destruct (pk obj) as [i|] eqn:Hpk.
  - destruct (Z.eqb_spec i 0) as [->|Hi]; simpl.
    + split; [discriminate|]. intros (j & [= <-] & Hj & _). done.
    + destruct (users db !! i) as [target|] eqn:Hrow.
      * split; [by destruct change|].
        intros (j & [= <-] & _ & Hnone). congruence.
      * split; [|done]. intros _. by exists i.
  - split; [discriminate|]. intros (j & Hj & _). discriminate.
Qed.

(** X25. The two reversions belong to changes only: when a user is added,
    [save_model] stores the submitted superuser flag as it is, for any
    actor, and leaves the role relation alone. *)
Theorem save_model_add_unguarded
    (has_perm : User → string → bool) (request : Request) (obj : User)
    (db : UserDB) (saved : User) (db' : UserDB)
    (Hsave : AdvancedUserAdmin.save_model has_perm request obj false db
             = Some (saved, db')) :
  is_superuser saved = is_superuser obj
  ∧ username saved = username obj
  ∧ user_roles db' = user_roles db
  ∧ ∃ i, pk saved = Some i ∧ users db' !! i = Some saved.
Proof.
  unfold AdvancedUserAdmin.save_model in Hsave.
  assert (Hplain : User_save obj db = (saved, db')).
  { destruct (pk obj) as [i|]; [|congruence].
    destruct (negb (i =? 0)); [|congruence].
    destruct (users db !! i); congruence. }
  clear Hsave. unfold User_save in Hplain.
  destruct (pk obj) as [i|] eqn:Hpk; injection Hplain as <- <-; simpl.
  - repeat split. exists i. split; [done | apply lookup_insert_eq].
  - repeat split. eexists. split; [done | apply lookup_insert_eq].
Qed.

Lemma save_model_add_unguarded_witness :
  let obj :=
    {| pk := None; username := "newcomer"; email := "n@example.org";
       is_active := true; is_superuser := true |} in
  let saved :=
    {| pk := Some 4; username := "newcomer"; email := "n@example.org";
       is_active := true; is_superuser := true |} in
  is_superuser saved = is_superuser obj
  ∧ username saved = username obj
  ∧ user_roles
      {| users := <[4 := saved]> (users Samples.sample_db);
         user_roles := user_roles Samples.sample_db |}
    = user_roles Samples.sample_db
  ∧ ∃ i, pk saved = Some i
         ∧ users {| users := <[4 := saved]> (users Samples.sample_db);
                    user_roles := user_roles Samples.sample_db |} !! i
           = Some saved.
Proof.
  apply (save_model_add_unguarded Samples.no_perm
           (mkRequest Samples.admin_user)
           {| pk := None; username := "newcomer"; email := "n@example.org";
              is_active := true; is_superuser := true |}
           Samples.sample_db).
  reflexivity.
Defined.

(** ** File API: access checks and the upload loop *)

(** A caller who may neither view the category nor manage the files of
    any article learns nothing from [_validate_request]: the answer is 403
    whether the page exists or not. *)
Theorem validate_request_hides_pages
    {Article Category Ref : Type}
    (get_article : Ref → option Article)
    (get_article_category : Ref → Category)
    (has_perm_category : string → Category → bool)
    (has_perm_article : string → Article → bool)
    (article_name_or_article : Ref)
    (Hview : has_perm_category "roles.view_articles"
               (get_article_category article_name_or_article) = false)
    (Hmanage : ∀ article,
        has_perm_article "roles.manage_article_files" article = false) :
  Files._validate_request Article Category Ref get_article
    get_article_category has_perm_category has_perm_article
    article_name_or_article true
  = Files.ApiError 403.
Proof.
  unfold Files._validate_request.
  destruct (get_article article_name_or_article) as [article|].
  - by rewrite Hmanage.
  - by rewrite Hview.
Qed.

Lemma validate_request_hides_pages_witness :
  Files._validate_request nat unit string
    (λ name, if decide (name = "main"%string) then Some 1%nat else None)
    (λ _, tt) (λ _ _, false) (λ _ _, false) "main"%string true
  = Files.ApiError 403
  ∧ Files._validate_request nat unit string
      (λ name, if decide (name = "main"%string) then Some 1%nat else None)
      (λ _, tt) (λ _ _, false) (λ _ _, false) "missing"%string true
    = Files.ApiError 403.
Proof.
  split.
  - apply (validate_request_hides_pages
             (λ name, if decide (name = "main"%string)
                      then Some 1%nat else None)
             (λ _, tt) (λ _ _, false) (λ _ _, false) "main"%string);
      reflexivity.
  - reflexivity.
Defined.

(** X28. The file list of a page is shown, and the absence of a page is
    admitted, only to callers who may view the page's category: any answer
    of [GetOrUploadView.get] other than 403 implies that permission. *)
Theorem file_list_requires_view
    {Article Category Ref : Type}
    (get_article : Ref → option Article)
    (get_article_category : Ref → Category)
    (has_perm_category : string → Category → bool)
    (has_perm_article : string → Article → bool)
    (article_name : Ref) :
  match Files.GetOrUploadView_get Article Category Ref get_article
          get_article_category has_perm_category has_perm_article
          article_name with
  | Files.ApiError code =>
      (code = 403 ∧ has_perm_category "roles.view_articles"
                      (get_article_category article_name) = false)
      ∨ (code = 404 ∧ get_article article_name = None
         ∧ has_perm_category "roles.view_articles"
             (get_article_category article_name) = true)
  | Files.ApiOk article =>
      get_article article_name = Some article
      ∧ has_perm_category "roles.view_articles"
          (get_article_category article_name) = true
  end.
Proof.
  unfold Files.GetOrUploadView_get, Files._validate_request.
  destruct (has_perm_category "roles.view_articles"
              (get_article_category article_name)) eqn:Hview; simpl.
  - destruct (get_article article_name) as [article|]; [done|].
    right. done.
  - left. done.
Qed.

Section UploadLoop.

Variables MEDIA_UPLOAD_LIMIT ABSOLUTE_MEDIA_UPLOAD_LIMIT : Z.
Variables current_files_size absolute_files_size : Z.

Local Abbreviation over_limit :=
  (Files.over_limit MEDIA_UPLOAD_LIMIT ABSOLUTE_MEDIA_UPLOAD_LIMIT
     current_files_size absolute_files_size).
Local Abbreviation upload_loop :=
  (Files.upload_loop MEDIA_UPLOAD_LIMIT ABSOLUTE_MEDIA_UPLOAD_LIMIT
     current_files_size absolute_files_size).

(** Once over the limit, always over it: the size only grows. *)
Lemma over_limit_mono (size size' : Z) :
  size ≤ size' → over_limit size = true → over_limit size' = true.
Proof.
  unfold Files.over_limit. intros Hle.
  rewrite !orb_true_iff, !andb_true_iff, !Z.gtb_lt. lia.
Qed.

Lemma upload_loop_spec (chunks : list (list Byte.byte)) (size : Z)
    (written : list Byte.byte) :
  upload_loop chunks size written
  = if over_limit (size + Z.of_nat (length (Files.body chunks)))
    then Files.UploadTooLarge
    else Files.Uploaded (size + Z.of_nat (length (Files.body chunks)))
           (written ++ Files.body chunks).
Proof.
  revert size written.
  induction chunks as [|chunk chunks IH]; intros size written.
  - simpl. rewrite Z.add_0_r, app_nil_r. done.
  - destruct chunk as [|b chunk].
    + simpl. rewrite Z.add_0_r, app_nil_r. done.
    + cbn [Files.upload_loop Files.body].
      destruct (over_limit (size + Z.of_nat (length (b :: chunk))))
        eqn:Hover.
      * erewrite over_limit_mono; [done | | exact Hover].
        rewrite length_app. lia.
      * rewrite IH, length_app, Nat2Z.inj_add, Z.add_assoc.
        by rewrite <- app_assoc.
Qed.

End UploadLoop.

(** X26. The chunk-wise check of the upload loop amounts to one check of the
    whole body: the upload is refused with 413 exactly when the body as a
    whole exceeds a positive limit, and otherwise the size recorded is the
    length of the body and the bytes written are the body, however the
    body was split into chunks. *)
Theorem upload_depends_on_body
    (MEDIA_UPLOAD_LIMIT ABSOLUTE_MEDIA_UPLOAD_LIMIT : Z)
    (current_files_size absolute_files_size : Z)
    (chunks : list (list Byte.byte)) :
  let total := Z.of_nat (length (Files.body chunks)) in
  Files.upload_loop MEDIA_UPLOAD_LIMIT ABSOLUTE_MEDIA_UPLOAD_LIMIT
    current_files_size absolute_files_size chunks 0 []
  = if Files.over_limit MEDIA_UPLOAD_LIMIT ABSOLUTE_MEDIA_UPLOAD_LIMIT
         current_files_size absolute_files_size total
    then Files.UploadTooLarge
    else Files.Uploaded total (Files.body chunks).
Proof.
  intros total. subst total. rewrite upload_loop_spec.
  by rewrite Z.add_0_l, app_nil_l.
Qed.

(** X27. An accepted upload respects both limits: with a positive soft limit
    the space in use plus the new file stays within it, and likewise for
    the hard limit. *)
Theorem upload_within_limits
    (MEDIA_UPLOAD_LIMIT ABSOLUTE_MEDIA_UPLOAD_LIMIT : Z)
    (current_files_size absolute_files_size : Z)
    (chunks : list (list Byte.byte)) (size : Z) (written : list Byte.byte)
    (Hok : Files.upload_loop MEDIA_UPLOAD_LIMIT ABSOLUTE_MEDIA_UPLOAD_LIMIT
             current_files_size absolute_files_size chunks 0 []
           = Files.Uploaded size written) :
  size = Z.of_nat (length written)
  ∧ (0 < MEDIA_UPLOAD_LIMIT →
     current_files_size + size ≤ MEDIA_UPLOAD_LIMIT)
  ∧ (0 < ABSOLUTE_MEDIA_UPLOAD_LIMIT →
     absolute_files_size + size ≤ ABSOLUTE_MEDIA_UPLOAD_LIMIT).
Proof.
  rewrite upload_loop_spec, Z.add_0_l, app_nil_l in Hok.
  destruct (Files.over_limit _ _ _ _ _) eqn:Hover; [discriminate|].
  injection Hok as <- <-.
  split; [done|].
  unfold Files.over_limit in Hover.
  apply orb_false_iff in Hover as [Hsoft Hhard].
  apply andb_false_iff in Hsoft. apply andb_false_iff in Hhard.
  rewrite !Z.gtb_ltb, !Z.ltb_ge in Hsoft, Hhard. lia.
Qed.

Lemma upload_within_limits_witness :
  let written := [Byte.x61; Byte.x62; Byte.x63] in
  3 = Z.of_nat (length written)
  ∧ (0 < 10 → 5 + 3 ≤ 10)
  ∧ (0 < 0 → 100 + 3 ≤ 0).
Proof.
  apply (upload_within_limits 10 0 5 100
           [[Byte.x61; Byte.x62]; [Byte.x63]; []] 3
           [Byte.x61; Byte.x62; Byte.x63]).
  reflexivity.
Defined.

(** ** Bot accounts *)

(** X29. [CreateBotView] never gives a second user a name that is taken: user
    names that were distinct stay distinct, the name asked for belongs to
    some user afterwards, and no existing row is changed. *)
Theorem create_bot_keeps_names_distinct
    (User_objects : list Bot.BotRow) (username : string)
    (Hdistinct : NoDup (Bot.bot_username <$> User_objects)) :
  let result := Bot.CreateBotView_form_valid User_objects username in
  NoDup (Bot.bot_username <$> result.1)
  ∧ username ∈ Bot.bot_username <$> result.1
  ∧ User_objects `prefix_of` result.1
  ∧ (result.2 = true ↔ username ∉ Bot.bot_username <$> User_objects).
Proof.
  unfold Bot.CreateBotView_form_valid.
  destruct (filter _ User_objects) as [|u rest] eqn:Hfilter; simpl.
  - assert (Hfree : username ∉ Bot.bot_username <$> User_objects).
    { intros (u & Hu & Hin)%list_elem_of_fmap.
      assert (Hmatch : u ∈ filter (λ u, Bot.bot_username u = username)
                             User_objects)
        by (by apply list_elem_of_filter).
      rewrite Hfilter in Hmatch. by apply elem_of_nil in Hmatch. }
    rewrite fmap_app. simpl. repeat split; try done.
    + apply NoDup_app. split; [done|]. split; [|apply NoDup_singleton].
      intros x Hx Hx'. apply list_elem_of_singleton in Hx' as ->. done.
    + apply elem_of_app. right. left.
    + by apply prefix_app_r.
  - assert (Hu : u ∈ filter (λ u, Bot.bot_username u = username)
                       User_objects) by (rewrite Hfilter; left).
    apply list_elem_of_filter in Hu as [Hname Hin].
    assert (Htaken : username ∈ Bot.bot_username <$> User_objects).
    { apply list_elem_of_fmap. by exists u. }
    repeat split; done.
Qed.

Lemma create_bot_keeps_names_distinct_witness :
  let User_objects :=
    [ {| Bot.bot_username := "helper"; Bot.bot_type := "bot" |} ] in
  let result := Bot.CreateBotView_form_valid User_objects "helper" in
  NoDup (Bot.bot_username <$> result.1)
  ∧ "helper"%string ∈ Bot.bot_username <$> result.1
  ∧ User_objects `prefix_of` result.1
  ∧ (result.2 = true
     ↔ "helper"%string ∉ Bot.bot_username <$> User_objects).
Proof.
  apply (create_bot_keeps_names_distinct
           [ {| Bot.bot_username := "helper"; Bot.bot_type := "bot" |} ]
           "helper").
  simpl. apply NoDup_singleton.
Defined.

(** ** Article API: validation of submitted data *)

Section ValidateArticle.

Import Articles.

Variable is_full_name_allowed : JSON → bool.
Variable strip : string → string.
Variable ARTICLE_SOURCE_LIMIT : Z.

Local Abbreviation validate :=
  (_validate_article_data is_full_name_allowed strip ARTICLE_SOURCE_LIMIT).

Lemma source_is_blank_false (source : JSON) :
  source_is_blank strip source = Some false →
  ∃ s, source = JStr s ∧ strip s ≠ EmptyString.
Proof.
  unfold source_is_blank.
  destruct (truthy source); [|discriminate].
  destruct source as [| | |s| |]; try discriminate.
  intros [= Hs]. exists s. split; [done|].
  by apply String.eqb_neq.
Qed.

(** What a submission that passed the validation looks like. *)
Lemma validate_Valid (data : gmap string JSON) (allow_partial : bool) :
  validate data allow_partial = Valid →
  (∃ pageId, data !! "pageId"%string = Some pageId
             ∧ truthy pageId = true ∧ is_full_name_allowed pageId = true)
  ∧ match data !! "source"%string with
    | None => allow_partial = true
    | Some source =>
        ∃ s, source = JStr s ∧ strip s ≠ EmptyString
             ∧ Z.of_nat (String.length s) ≤ ARTICLE_SOURCE_LIMIT
    end
  ∧ match data !! "title"%string with
    | None => allow_partial = true
    | Some title => title ≠ JNull
    end.
Proof.
  unfold _validate_article_data.
  case_bool_decide as Hempty; [discriminate|].
  destruct (data !! "pageId"%string) as [pageId|]; [|discriminate].
  destruct (truthy pageId) eqn:Hpage; [|discriminate].
  destruct (is_full_name_allowed pageId) eqn:Hallowed; [|discriminate].
  simpl. intros Hvalid. split; [by exists pageId|].
  destruct (data !! "source"%string) as [source|] eqn:Hsource.
  - destruct (source_is_blank strip source) as [[|]|] eqn:Hblank;
      try discriminate.
    { rewrite bool_decide_eq_false_2, andb_false_r in Hvalid by done.
      discriminate. }
    simpl in Hvalid.
    apply source_is_blank_false in Hblank as (s & -> & Hs).
    split.
    + exists s. split; [done|]. split; [done|].
      destruct (data !! "title"%string) as [[]|]; simpl in Hvalid;
        destruct allow_partial; simpl in Hvalid; try discriminate;
        destruct (Z.gtb_spec (Z.of_nat (String.length s))
                    ARTICLE_SOURCE_LIMIT); try discriminate; lia.
    + destruct (data !! "title"%string) as [[]|]; simpl in Hvalid;
        destruct allow_partial; simpl in Hvalid; try discriminate; done.
  - rewrite bool_decide_eq_true_2 in Hvalid by done.
    destruct allow_partial; [|discriminate]. simpl in Hvalid.
    split; [done|].
    destruct (data !! "title"%string) as [[]|]; simpl in Hvalid;
      try discriminate; done.
Qed.

End ValidateArticle.

(** X30. A submission that passes [_validate_article_data] names an allowed
    page, and its source and title are in order: the source is a string
    that is not blank and not longer than the limit, the title is present
    and not [null]; only with [allow_partial] may either be left out. *)
Theorem validate_article_data_accepts
    (is_full_name_allowed : Articles.JSON → bool) (strip : string → string)
    (ARTICLE_SOURCE_LIMIT : Z) (data : gmap string Articles.JSON)
    (allow_partial : bool)
    (Hvalid : Articles._validate_article_data is_full_name_allowed strip
                ARTICLE_SOURCE_LIMIT data allow_partial
              = Articles.Valid) :
  (∃ pageId, data !! "pageId"%string = Some pageId
             ∧ Articles.truthy pageId = true
             ∧ is_full_name_allowed pageId = true)
  ∧ (allow_partial = false →
     ∃ s title,
       data !! "source"%string = Some (Articles.JStr s)
       ∧ strip s ≠ EmptyString
       ∧ Z.of_nat (String.length s) ≤ ARTICLE_SOURCE_LIMIT
       ∧ data !! "title"%string = Some title
       ∧ title ≠ Articles.JNull)
  ∧ (∀ source, data !! "source"%string = Some source →
       ∃ s, source = Articles.JStr s ∧ strip s ≠ EmptyString
            ∧ Z.of_nat (String.length s) ≤ ARTICLE_SOURCE_LIMIT)
  ∧ (∀ title, data !! "title"%string = Some title →
       title ≠ Articles.JNull).
Proof.
  apply validate_Valid in Hvalid as (Hpage & Hsource & Htitle).
  split; [done|]. split; [|split].
  - intros ->.
    destruct (data !! "source"%string) as [source|]; [|discriminate].
    destruct (data !! "title"%string) as [title|]; [|discriminate].
    destruct Hsource as (s & -> & Hs & Hlen). by exists s, title.
  - intros source Hsrc. by rewrite Hsrc in Hsource.
  - intros title Htl. by rewrite Htl in Htitle.
Qed.

Lemma validate_article_data_accepts_witness :
  let data : gmap string Articles.JSON :=
    {[ "pageId"%string := Articles.JStr "main";
       "source"%string := Articles.JStr "Hello";
       "title"%string := Articles.JStr "Main" ]} in
  (∃ pageId, data !! "pageId"%string = Some pageId
             ∧ Articles.truthy pageId = true
             ∧ (λ _ : Articles.JSON, true) pageId = true)
  ∧ (false = false →
     ∃ s title,
       data !! "source"%string = Some (Articles.JStr s)
       ∧ (λ s : string, s) s ≠ EmptyString
       ∧ Z.of_nat (String.length s) ≤ 100
       ∧ data !! "title"%string = Some title
       ∧ title ≠ Articles.JNull)
  ∧ (∀ source, data !! "source"%string = Some source →
       ∃ s, source = Articles.JStr s ∧ (λ s : string, s) s ≠ EmptyString
            ∧ Z.of_nat (String.length s) ≤ 100)
  ∧ (∀ title, data !! "title"%string = Some title →
       title ≠ Articles.JNull).
Proof.
  apply (validate_article_data_accepts (λ _, true) (λ s, s) 100
           {[ "pageId"%string := Articles.JStr "main";
              "source"%string := Articles.JStr "Hello";
              "title"%string := Articles.JStr "Main" ]} false).
  vm_compute. reflexivity.
Defined.

(** [allow_partial] only ever relaxes the validation: whatever is accepted
    as a full submission is accepted as a partial one. *)
Theorem validate_article_data_partial_weaker
    (is_full_name_allowed : Articles.JSON → bool) (strip : string → string)
    (ARTICLE_SOURCE_LIMIT : Z) (data : gmap string Articles.JSON)
    (Hfull : Articles._validate_article_data is_full_name_allowed strip
               ARTICLE_SOURCE_LIMIT data false
             = Articles.Valid) :
  Articles._validate_article_data is_full_name_allowed strip
    ARTICLE_SOURCE_LIMIT data true
  = Articles.Valid.
Proof.
  unfold Articles._validate_article_data in *.
  case_bool_decide as Hempty; [discriminate|].
  destruct (match data !! "pageId"%string with
            | Some pageId => _ | None => true end); [discriminate|].
  destruct (match data !! "source"%string with
            | Some source => _ | None => Some true end) as [[|]|];
    try discriminate; simpl in *.
  destruct (match data !! "title"%string with
            | Some Articles.JNull => true | Some _ => false | None => true
            end); [discriminate|]. simpl in *. done.
Qed.

Lemma validate_article_data_partial_weaker_witness :
  Articles._validate_article_data (λ _, true) (λ s, s) 100
    {[ "pageId"%string := Articles.JStr "main";
       "source"%string := Articles.JStr "Hello";
       "title"%string := Articles.JStr "Main" ]} true
  = Articles.Valid.
Proof.
  apply (validate_article_data_partial_weaker (λ _, true) (λ s, s) 100).
  vm_compute. reflexivity.
Defined.

(** A blank source is refused even in a partial update: leaving the
    source out is allowed, sending an empty one is not. *)
Example validate_article_data_blank_source :
  Articles._validate_article_data (λ _, true) (λ s, s) 100
    {[ "pageId"%string := Articles.JStr "main";
       "source"%string := Articles.JStr "" ]} true
  = Articles.Invalid (Some 400)
  ∧ Articles._validate_article_data (λ _, true) (λ s, s) 100
      {[ "pageId"%string := Articles.JStr "main" ]} true
    = Articles.Valid.
Proof. split; vm_compute; reflexivity. Qed.

(** ** The admin guards and the parent class *)

(** The three permission overrides only ever restrict: whenever one of
    them grants a request, the parent class grants it too, and without an
    object (the list view) they return the parent's answer unchanged. *)
Theorem admin_guards_only_restrict
    (operation_index : User → Z)
    (sup_user : Request → option User → bool)
    (sup_role sup_role_delete : Request → option Role → bool)
    (request : Request) (user_obj : option User) (role_obj : option Role) :
  (AdvancedUserAdmin.has_change_permission operation_index sup_user request
     user_obj = true → sup_user request user_obj = true)
  ∧ (RoleAdmin.has_change_permission operation_index sup_role request
       role_obj = true → sup_role request role_obj = true)
  ∧ (RoleAdmin.has_delete_permission sup_role_delete request role_obj = true
     → sup_role_delete request role_obj = true)
  ∧ AdvancedUserAdmin.has_change_permission operation_index sup_user request
      None = sup_user request None
  ∧ RoleAdmin.has_change_permission operation_index sup_role request None
    = sup_role request None
  ∧ RoleAdmin.has_delete_permission sup_role_delete request None
    = sup_role_delete request None.
Proof.
  unfold AdvancedUserAdmin.has_change_permission,
    RoleAdmin.has_change_permission, RoleAdmin.has_delete_permission.
  repeat split.
  - destruct user_obj as [o|]; [|done].
    by destruct (negb (is_superuser (user request)) && _).
  - destruct role_obj as [o|]; [|done].
    by destruct (negb (is_superuser (user request)) && _).
  - destruct role_obj as [o|]; [|done].
    by destruct (bool_decide (slug o ∈ default_slugs)).
Qed.

